(** * xsdata: the dataclass XML serializer

    A shallow embedding of [xsdata/formats/dataclass/serializers/xml.py]:
    the [Namespaces] registry and the [XmlSerializer] tree builder, with
    the lxml element tree kept in an explicit object store so that
    in-place mutation and object identity are visible. *)

From stdpp Require Import base list strings pretty.

Local Open Scope string_scope.
Local Open Scope list_scope.
Local Open Scope nat_scope.

(** ** Python values used as conditions *)

Module Py.

(** [if s:] for a value that is either [None] or a [str]. *)
Definition truthy (o : option string) : bool :=
  match o with
  | Some s => negb (String.eqb s "")
  | None => false
  end.

End Py.

(** ** Insertion-ordered dictionaries

    A Python [dict] (and lxml's attribute mapping) keeps its keys in
    order of first insertion; assigning to an existing key replaces the
    value in place. *)

Module PyDict.
Section dict.
Context {K V : Type} `{EqDecision K}.

Fixpoint get (k : K) (d : list (K * V)) : option V :=
  match d with
  | [] => None
  | (k', v) :: d' => if decide (k = k') then Some v else get k d'
  end.

Fixpoint set (k : K) (v : V) (d : list (K * V)) : list (K * V) :=
  match d with
  | [] => [(k, v)]
  | (k', v') :: d' =>
      if decide (k = k') then (k, v) :: d' else (k', v') :: set k v d'
  end.

Definition contains (k : K) (d : list (K * V)) : bool :=
  match get k d with Some _ => true | None => false end.

Definition keys (d : list (K * V)) : list K := map fst d.
Definition values (d : list (K * V)) : list V := map snd d.

End dict.
End PyDict.

(** ** Data model *)

(** A qualified name, [lxml.etree.QName]: an optional namespace URI and a
    local name. Tags, attribute keys and descriptor names are kept in
    this structured form rather than in Clark notation. *)
Record QName := mkQName { qn_namespace : option string; qn_localname : string }.

#[global] Instance QName_eq_dec : EqDecision QName.
Proof. solve_decision. Defined.

(** The Python values the serializer can meet. [VData] is a dataclass
    instance: its class name and its attributes. [VAnyText] and
    [VAnyElement] are the wildcard carriers [AnyText] and [AnyElement] of
    [xsdata.formats.dataclass.models], with the attributes the
    serializer reads; [VDict] is a mapping of attribute names to
    strings. *)
#[warnings="-register-all"]
Inductive Value :=
| VNone
| VBool (b : bool)
| VInt (z : Z)
| VStr (s : string)
| VList (items : list Value)
| VDict (entries : list (QName * string))
| VAnyText (text : option string)
           (nsmap : list (option string * option string))
           (attributes : list (QName * string))
| VAnyElement (qname : QName) (text tail : option string)
              (children : list Value)
| VData (cls : string) (fields : list (string * Value)).

(** [dataclasses.is_dataclass] on an instance: the record instances and
    the two wildcard carriers, which are dataclasses as well. *)
Definition is_dataclass (v : Value) : bool :=
  match v with
  | VData _ _ | VAnyText _ _ _ | VAnyElement _ _ _ _ => true
  | _ => false
  end.

(** The Clark notation [{uri}local] of a qualified name, the string that
    [AnyElement.qname] holds and [QName(val.qname)] reads. *)
Definition clark (q : QName) : string :=
  match qn_namespace q with
  | Some uri => "{" +:+ uri +:+ "}" +:+ qn_localname q
  | None => qn_localname q
  end.

(** An optional string as a Python value. *)
Definition of_text (o : option string) : Value :=
  match o with Some s => VStr s | None => VNone end.

(** Modelled from the spec: a dataclass instance as [render_node] sees
    it, its class and its attributes by name. A record instance has its
    own. [AnyText] and [AnyElement] are declared in
    [xsdata.formats.dataclass.models], which is not among the sources;
    their attributes are those the serializer reads from them: [text],
    [nsmap] and [attributes], and [qname], [text], [tail] and
    [children]. The namespace map is a mapping of prefixes to URIs, its
    prefixes standing as names without a namespace. *)
Definition record_view (v : Value) : option (string * list (string * Value)) :=
  match v with
  | VData cls fields => Some (cls, fields)
  | VAnyText text nsmap attributes =>
      Some ("AnyText",
            [("text", of_text text);
             ("nsmap",
              VDict ((λ entry, (mkQName None (default "" (fst entry)),
                                default "" (snd entry))) <$> nsmap));
             ("attributes", VDict attributes)])
  | VAnyElement qname text tail children =>
      Some ("AnyElement",
            [("qname", VStr (clark qname)); ("text", of_text text);
             ("tail", of_text tail); ("children", VList children)])
  | _ => None
  end.

(** [value is not None] *)
Definition is_not_None (v : Value) : bool :=
  match v with VNone => false | _ => true end.

(** How deep a value nests lists, wildcard carriers and record
    instances: the depth of recursion the builder needs for it. *)
Fixpoint depth (v : Value) : nat :=
  match v with
  | VList items => S (foldr (λ x acc, depth x `max` acc) 0 items)
  | VAnyText _ _ _ => 1
  | VAnyElement _ _ _ children =>
      S (foldr (λ x acc, depth x `max` acc) 0 children)
  | VData _ fields =>
      S (foldr (λ kv acc, depth (snd kv) `max` acc) 0 fields)
  | _ => 0
  end.

(** Modelled from the spec: the classification of a field descriptor
    ([ClassVar] of [xsdata.formats.dataclass.mixins] is not among the
    sources). A descriptor has exactly one of five classifications. *)
Inductive Classification :=
| CElement | CAttribute | CText | CAnyElement | CAnyAttribute.

#[global] Instance Classification_eq_dec : EqDecision Classification.
Proof. solve_decision. Defined.

(** Modelled from the spec: the field descriptor [ClassVar], with the
    attributes the serializer reads: [name], [qname], [namespace],
    [is_nillable] and the four tests on its classification. *)
Module ClassVar.
Record t := mk {
  name : string;
  qname : QName;
  namespace : option string;
  tag : Classification;
  is_nillable : bool }.

Definition is_attribute (var : t) : bool := bool_decide (tag var = CAttribute).
Definition is_any_attribute (var : t) : bool := bool_decide (tag var = CAnyAttribute).
Definition is_any_element (var : t) : bool := bool_decide (tag var = CAnyElement).
Definition is_text (var : t) : bool := bool_decide (tag var = CText).
End ClassVar.

(** What [class_meta] returns for a record type: its namespace, its
    qualified name and its field descriptors in declared order. *)
Module ClassMeta.
Record t := mk {
  namespace : option string;
  qname : QName;
  vars : list ClassVar.t }.
End ClassMeta.

(** The lxml element object: tag, ordered attributes, text, tail and the
    references of its children. *)
Module Element.
Record node := mk {
  tag : QName;
  attrib : list (QName * string);
  text : option string;
  tail : option string;
  children : list nat }.

Definition new (qname : QName) : node :=
  {| tag := qname; attrib := []; text := None; tail := None; children := [] |}.

Definition with_text (x : option string) (n : node) : node :=
  {| tag := tag n; attrib := attrib n; text := x; tail := tail n;
     children := children n |}.
Definition with_tail (x : option string) (n : node) : node :=
  {| tag := tag n; attrib := attrib n; text := text n; tail := x;
     children := children n |}.
Definition with_attribute (k : QName) (v : string) (n : node) : node :=
  {| tag := tag n; attrib := PyDict.set k v (attrib n); text := text n;
     tail := tail n; children := children n |}.
Definition with_child (c : nat) (n : node) : node :=
  {| tag := tag n; attrib := attrib n; text := text n; tail := tail n;
     children := children n ++ [c] |}.

#[global] Instance node_inhabited : Inhabited node :=
  populate (new (mkQName None "")).
End Element.

(** The collaborators the serializer imports: the well-known namespace
    catalog ([Namespace.get_enum], reduced to the prefix of the member it
    finds), the [Namespace.XSI] member, the value converter [to_xml], the
    descriptor provider [class_meta] and lxml's [tostring]. *)
Class Collaborators := {
  get_enum : string → option string;
  XSI_uri : string;
  XSI_prefix : string;
  to_xml : Value → string;
  class_meta : string → option string → ClassMeta.t;
  tostring : list Element.node → nat → bool → string → bool → string }.

(** ** The namespace registry, [class Namespaces] *)

Module Namespaces.

(** [items] maps a URI to its prefix; [auto_ns] counts the generated
    prefixes. *)
Record t := mk {
  items : list (string * string);
  auto_ns : nat }.

(** [Namespaces()] *)
Definition fresh : t := {| items := []; auto_ns := 0 |}.

(** [list(filter(None, self.items.values()))] *)
Definition prefixes (self : t) : list string :=
  filter (λ p, p ≠ "") (PyDict.values (items self)).

(** [{v: k for k, v in self.items.items()}] *)
Definition ns_map (self : t) : list (string * string) :=
  fold_left (λ acc kv, PyDict.set (snd kv) (fst kv) acc) (items self) [].

Section WithCollaborators.
Context `{!Collaborators}.

Definition add (uri prefix : option string) (self : t) : t :=
  match uri with
  | Some u =>
      if Py.truthy uri && negb (PyDict.contains u (items self)) then
        let '(prefix, auto_ns) :=
          match get_enum u with
          | Some namespace_prefix => (namespace_prefix, auto_ns self)
          | None =>
              if negb (Py.truthy prefix)
              then ("ns" +:+ pretty (auto_ns self), auto_ns self + 1)
              else (default "" prefix, auto_ns self)
          end in
        {| items := PyDict.set u prefix (items self); auto_ns := auto_ns |}
      else self
  | None => self
  end.

(** [for prefix, uri in ns_map.items(): self.add(uri, prefix)] *)
Definition add_all (ns_map : list (option string * option string))
    (self : t) : t :=
  fold_left (λ acc entry, add (snd entry) (fst entry) acc) ns_map self.

(** A call made on the registry by its client, and the effect of a
    sequence of such calls. *)
Inductive call :=
| Add (uri prefix : option string)
| AddAll (ns_map : list (option string * option string)).

Definition run_call (c : call) (self : t) : t :=
  match c with
  | Add uri prefix => add uri prefix self
  | AddAll ns_map => add_all ns_map self
  end.

Definition run (calls : list call) (self : t) : t :=
  fold_left (λ acc c, run_call c acc) calls self.

End WithCollaborators.
End Namespaces.

(** ** The object store and the effects of the serializer

    Elements are Python objects mutated in place. The store is the list
    of all element objects allocated so far; a reference is an index in
    it. Allocation appends, so a reference stays valid and keeps naming
    the same object. The registry of the running render is threaded
    together with the store. *)

Record State := mkState {
  heap : list Element.node;
  namespaces : Namespaces.t }.

Inductive Error :=
| SerializerError (msg : string)
| AttributeError
| TypeError
| RecursionError.

Inductive Result (A : Type) :=
| Ok (a : A) (st : State)
| Raise (e : Error).
Arguments Ok {A} a st.
Arguments Raise {A} e.

Definition M (A : Type) : Type := State → Result A.

Definition ret {A} (a : A) : M A := λ st, Ok a st.

Definition bind {A B} (m : M A) (k : A → M B) : M B :=
  λ st, match m st with
        | Ok a st' => k a st'
        | Raise e => Raise e
        end.

Definition raise {A} (e : Error) : M A := λ _, Raise e.

Declare Scope py_scope.
Delimit Scope py_scope with py.
Notation "'let*' x ':=' m 'in' k" := (bind m (λ x, k))
  (at level 10, x name, m at level 100, k at level 200) : py_scope.
Notation "m ';;' k" := (bind m (λ _, k))
  (at level 100, k at level 200, right associativity) : py_scope.
Local Open Scope py_scope.

(** [for x in l: body(x)] *)
Fixpoint for_each {A} (l : list A) (body : A → M unit) : M unit :=
  match l with
  | [] => ret tt
  | x :: l' => body x ;; for_each l' body
  end.

(** Reading an object through a reference. Python has no dangling
    reference; for an index the store does not hold, reading yields a
    blank element and [mutate] below does nothing. *)
Definition deref (r : nat) : M Element.node :=
  λ st, Ok (heap st !!! r) st.

(** Mutating the object behind a reference. lxml refuses a text, a tail
    or an attribute that XML cannot hold (a control character, say) with
    a [ValueError]; that validation is lxml's and is not modelled: every
    string is taken. *)
Definition mutate (r : nat) (f : Element.node → Element.node) : M unit :=
  λ st, Ok tt {| heap := alter f r (heap st); namespaces := namespaces st |}.

(** [lxml.etree.Element(qname)]. The [ValueError] of lxml for a name
    that is no XML name is not modelled either. *)
Definition Element (qname : QName) : M nat :=
  λ st, Ok (length (heap st))
           {| heap := heap st ++ [Element.new qname];
              namespaces := namespaces st |}.

(** [lxml.etree.SubElement(parent, qname)] *)
Definition SubElement (parent : nat) (qname : QName) : M nat :=
  let* sub_element := Element qname in
  mutate parent (Element.with_child sub_element) ;;
  ret sub_element.

(** A method call on the registry of the running render. *)
Definition on_namespaces (f : Namespaces.t → Namespaces.t) : M unit :=
  λ st, Ok tt {| heap := heap st; namespaces := f (namespaces st) |}.

(** [getattr(obj, name)] on the attributes of a dataclass instance, as
    [record_view] lists them. *)
Definition getattr (fields : list (string * Value)) (name : string) : M Value :=
  match PyDict.get name fields with
  | Some v => ret v
  | None => raise AttributeError
  end.

(** [value if isinstance(value, list) else [value]] *)
Definition as_list (value : Value) : list Value :=
  match value with
  | VList items => items
  | _ => [value]
  end.

(** ** The tree builder, [class XmlSerializer] *)

Module XmlSerializer.

(** The configuration fields of the serializer. *)
Record t := mk {
  xml_declaration : bool;
  encoding : string;
  pretty_print : bool }.

(** What [render_tree] hands back: the root element, and the two
    arguments it gives to lxml's [cleanup_namespaces] for the
    namespace declarations of that root. *)
Record tree := mkTree {
  root : nat;
  top_nsmap : list (string * string);
  keep_ns_prefixes : list string }.

Section WithCollaborators.
Context `{!Collaborators}.

Definition set_attribute (parent : nat) (value : Value)
    (var : ClassVar.t) : M unit :=
  mutate parent (Element.with_attribute (ClassVar.qname var) (to_xml value)).

Definition set_attributes (parent : nat) (values : Value) : M unit :=
  match values with
  | VDict entries =>
      for_each entries
        (λ entry, mutate parent (Element.with_attribute (fst entry) (snd entry)))
  | _ => raise AttributeError
  end.

Definition set_text (parent : nat) (value : Value) : M unit :=
  mutate parent (Element.with_text (Some (to_xml value))).

Definition set_nil_attribute (var : ClassVar.t) (element : nat) : M unit :=
  let* e := deref element in
  if ClassVar.is_nillable var
     && bool_decide (Element.text e = None)
     && bool_decide (length (Element.children e) = 0)
  then
    on_namespaces (Namespaces.add (Some XSI_uri) (Some XSI_prefix)) ;;
    let qname := mkQName (Some XSI_uri) "nil" in
    mutate element (Element.with_attribute qname "true")
  else ret tt.

(** The body of the loop of [set_any_children], for one item. [self]
    is the recursive call. *)
Definition set_any_child (self : nat → Value → M unit)
    (parent : nat) (val : Value) : M unit :=
  match val with
  | VStr s =>
      let* p := deref parent in
      if Py.truthy (Element.text p)
      then mutate parent (Element.with_tail (Some s))
      else mutate parent (Element.with_text (Some s))
  | VAnyText text nsmap attributes =>
      mutate parent (Element.with_text text) ;;
      on_namespaces (Namespaces.add_all nsmap) ;;
      set_attributes parent (VDict attributes)
  | VAnyElement qname text tail children =>
      on_namespaces (Namespaces.add (qn_namespace qname) None) ;;
      let* sub_element := SubElement parent qname in
      mutate sub_element (Element.with_text text) ;;
      mutate sub_element (Element.with_tail tail) ;;
      for_each children (λ child, self sub_element child)
  | _ => ret tt
  end.

(** [fuel] bounds the depth of nested calls, as the interpreter's
    recursion limit does. *)
Fixpoint set_any_children (fuel : nat) (parent : nat) (value : Value)
    : M unit :=
  match fuel with
  | 0 => raise RecursionError
  | S fuel' =>
      for_each (as_list value) (set_any_child (set_any_children fuel') parent)
  end.

Definition set_children (render_node : Value → nat → M nat)
    (parent : nat) (value : Value) (var : ClassVar.t) : M unit :=
  for_each (as_list value) (λ val,
    let* sub_element := SubElement parent (ClassVar.qname var) in
    render_node val sub_element ;;
    set_nil_attribute var sub_element).

(** The body of the loop of [render_node], for one descriptor. *)
Definition render_var (render_node : Value → nat → M nat)
    (set_any_children : nat → Value → M unit)
    (fields : list (string * Value)) (parent : nat)
    (var : ClassVar.t) : M unit :=
  let* value := getattr fields (ClassVar.name var) in
  if is_not_None value then
    (if negb (ClassVar.is_any_element var)
     then on_namespaces (Namespaces.add (ClassVar.namespace var) None)
     else ret tt) ;;
    if ClassVar.is_attribute var then
      set_attribute parent value var
    else if ClassVar.is_any_attribute var then
      set_attributes parent value
    else if ClassVar.is_any_element var then
      set_any_children parent value
    else if ClassVar.is_text var then
      if is_dataclass value
      then raise (SerializerError "Text nodes can't be dataclasses!")
      else set_text parent value
    else
      set_children render_node parent value var
  else if ClassVar.is_text var then
    set_nil_attribute var parent
  else ret tt.

Fixpoint render_node (fuel : nat) (obj : Value) (parent : nat) : M nat :=
  match fuel with
  | 0 => raise RecursionError
  | S fuel' =>
      match record_view obj with
      | None =>
          mutate parent (Element.with_text (Some (to_xml obj))) ;;
          ret parent
      | Some (cls, fields) =>
          let* p := deref parent in
          let meta := class_meta cls (qn_namespace (Element.tag p)) in
          for_each (ClassMeta.vars meta)
            (render_var (render_node fuel') (set_any_children fuel')
                        fields parent) ;;
          ret parent
      end
  end.

(** [render_tree] creates its own registry, runs the builder on the
    store it is given and returns the root with the store as the
    builder left it; on an exception nothing is returned. [class_meta]
    is given the class of the instance; an object that is no dataclass
    instance is refused there. *)
Definition render_tree (fuel : nat) (obj : Value)
    (namespace : option string) (store : list Element.node)
    : Error + (tree * list Element.node) :=
  match record_view obj with
  | Some (cls, _) =>
      let meta := class_meta cls namespace in
      let registry :=
        Namespaces.add (ClassMeta.namespace meta) None Namespaces.fresh in
      let build :=
        let* element := Element (ClassMeta.qname meta) in
        render_node fuel obj element in
      match build {| heap := store; namespaces := registry |} with
      | Ok root st =>
          inr ({| root := root;
                  top_nsmap := Namespaces.ns_map (namespaces st);
                  keep_ns_prefixes := Namespaces.prefixes (namespaces st) |},
               heap st)
      | Raise e => inl e
      end
  | None => inl TypeError
  end.

Definition render (self : t) (fuel : nat) (obj : Value)
    (store : list Element.node) : Error + string :=
  match render_tree fuel obj None store with
  | inr (tree, store') =>
      inr (tostring store' (root tree) (xml_declaration self)
                    (encoding self) (pretty_print self))
  | inl e => inl e
  end.

End WithCollaborators.
End XmlSerializer.

(** ** Reading a tree back from the store *)

(** The tree below a reference, as a value: what a structural comparison
    of two lxml trees sees. [depth] bounds how far down it looks. *)
#[warnings="-register-all"]
Inductive Tree :=
| Cut
| Node (tag : QName) (attrib : list (QName * string))
       (text tail : option string) (children : list Tree).

Fixpoint to_tree (depth : nat) (store : list Element.node) (r : nat) : Tree :=
  match depth with
  | 0 => Cut
  | S depth' =>
      let e := store !!! r in
      Node (Element.tag e) (Element.attrib e) (Element.text e) (Element.tail e)
           (map (to_tree depth' store) (Element.children e))
  end.

(** ** A concrete set of collaborators for the examples *)

Module Sample.

Definition xsi : string := "http://www.w3.org/2001/XMLSchema-instance".

(** Modelled from the spec: the well-known-namespace catalog
    ([xsdata.models.enums.Namespace] is not among the sources), here
    with the one entry the serializer itself relies on, the
    instance-metadata namespace and its fixed prefix. *)
Definition get_enum (uri : string) : option string :=
  if decide (uri = xsi) then Some "xsi" else None.

(** Modelled from the spec: the value-converter collaborator
    ([xsdata.formats.converters.to_xml] is not among the sources), a
    pure function from a primitive value to its lexical text. *)
Fixpoint to_xml (v : Value) : string :=
  match v with
  | VBool true => "true"
  | VBool false => "false"
  | VInt z => pretty z
  | VStr s => s
  | VList items =>
      (fix join (l : list Value) : string :=
         match l with
         | [] => ""
         | [x] => to_xml x
         | x :: l' => to_xml x +:+ " " +:+ join l'
         end) items
  | _ => ""
  end.

Definition element (name : string) (nillable : bool) : ClassVar.t :=
  ClassVar.mk name (mkQName None name) None CElement nillable.

(** Modelled from the spec: the field descriptor provider
    ([ModelInspect.class_meta] is not among the sources), for the
    record types of the examples: [ProductType] of
    [tests/fixtures/defxmlschema/chapter12/example1215.py], the same
    type with a nillable [color], a type with one wildcard-element
    field, a type with a nillable text field followed by an element
    field, a type with an attribute and an element, and the two
    wildcard carriers, whose attributes come without metadata and so
    count as elements. *)
Definition class_meta (cls : string) (namespace : option string)
    : ClassMeta.t :=
  if decide (cls = "ProductType") then
    ClassMeta.mk namespace (mkQName namespace "ProductType")
      [element "number" false; element "name" false;
       element "size" false; element "color" false]
  else if decide (cls = "NillableProductType") then
    ClassMeta.mk namespace (mkQName namespace "NillableProductType")
      [element "number" false; element "name" false;
       element "size" false; element "color" true]
  else if decide (cls = "Mixed") then
    ClassMeta.mk namespace (mkQName namespace "Mixed")
      [ClassVar.mk "content" (mkQName None "content") None CAnyElement false]
  else if decide (cls = "Note") then
    ClassMeta.mk namespace (mkQName namespace "Note")
      [ClassVar.mk "value" (mkQName None "value") None CText true;
       element "author" false]
  else if decide (cls = "Holder") then
    ClassMeta.mk namespace (mkQName namespace "Holder")
      [ClassVar.mk "value" (mkQName None "value") None CText false]
  else if decide (cls = "Empty") then
    ClassMeta.mk namespace (mkQName namespace "Empty") []
  else if decide (cls = "Wrapper") then
    ClassMeta.mk namespace (mkQName namespace "Wrapper")
      [element "item" true]
  else if decide (cls = "Tagged") then
    ClassMeta.mk namespace (mkQName namespace "Tagged")
      [ClassVar.mk "id" (mkQName None "id") None CAttribute false;
       element "name" false]
  else if decide (cls = "AnyText") then
    ClassMeta.mk namespace (mkQName namespace "AnyText")
      [element "text" false; element "nsmap" false;
       element "attributes" false]
  else if decide (cls = "AnyElement") then
    ClassMeta.mk namespace (mkQName namespace "AnyElement")
      [element "qname" false; element "text" false; element "tail" false;
       element "children" false]
  else
    ClassMeta.mk namespace (mkQName namespace cls) [].

Definition tostring (store : list Element.node) (root : nat)
    (xml_declaration : bool) (encoding : string) (pretty_print : bool)
    : string := "".

Definition collaborators : Collaborators :=
  Build_Collaborators get_enum xsi "xsi" to_xml class_meta tostring.

End Sample.

(** * The vocabulary of the statements *)

(** ** The registry *)

(** The bijection the registry is meant to keep: the keys of [items] are
    distinct URIs, and no two URIs share a non-empty prefix. *)
Definition prefix_injective (self : Namespaces.t) : Prop :=
  ∀ uri1 uri2 prefix,
    prefix ≠ "" →
    PyDict.get uri1 (Namespaces.items self) = Some prefix →
    PyDict.get uri2 (Namespaces.items self) = Some prefix →
    uri1 = uri2.

Definition bijection_invariant (self : Namespaces.t) : Prop :=
  NoDup (PyDict.keys (Namespaces.items self)) ∧ prefix_injective self.

(** The URIs that a sequence of [add(uri, prefix)] calls meets for the
    first time while they are neither well known nor given a prefix, in
    the order of the calls. [seen] are the URIs registered so far. *)
Fixpoint auto_named `{!Collaborators} (seen : list string)
    (calls : list (option string * option string)) : list string :=
  match calls with
  | [] => []
  | (uri, prefix) :: rest =>
      match uri with
      | Some u =>
          if bool_decide (u = "") || bool_decide (u ∈ seen) then
            auto_named seen rest
          else if bool_decide (is_Some (get_enum u)) || Py.truthy prefix then
            auto_named (u :: seen) rest
          else u :: auto_named (u :: seen) rest
      | None => auto_named seen rest
      end
  end.

(** The successive calls [add(uri, prefix)] for a list of argument
    pairs. *)
Definition adds (calls : list (option string * option string))
    : list Namespaces.call :=
  map (λ c, Namespaces.Add (fst c) (snd c)) calls.

(** ** The nil check *)

(** The attribute key [QName(Namespace.XSI.uri, "nil")]. *)
Definition nil_qname `{!Collaborators} : QName := mkQName (Some XSI_uri) "nil".

(** The condition [set_nil_attribute] tests on the element as it is when
    the check runs. *)
Definition nil_condition (var : ClassVar.t) (e : Element.node) : Prop :=
  ClassVar.is_nillable var = true ∧ Element.text e = None ∧
  Element.children e = [].

#[global] Instance nil_condition_dec var e : Decision (nil_condition var e).
Proof. unfold nil_condition. apply _. Defined.

(** ** What a computation does to the store *)

(** From [st] to [st'] the store only grew, no object other than [p]
    that existed in [st] was changed, no existing object changed its
    tag, and whatever became a child of some object is an object
    created since [st] and present in [st']. *)
Definition only_touches (p : nat) (st st' : State) : Prop :=
  length (heap st) ≤ length (heap st') ∧
  (∀ i, i < length (heap st) → i ≠ p → heap st' !! i = heap st !! i) ∧
  (∀ i, i < length (heap st) →
        Element.tag (heap st' !!! i) = Element.tag (heap st !!! i)) ∧
  (∀ i c, c ∈ Element.children (heap st' !!! i) →
          c ∈ Element.children (heap st !!! i) ∨
          (length (heap st) ≤ c ∧ c < length (heap st'))).

Definition touches_only {A} (p : nat) (m : M A) : Prop :=
  ∀ st a st', m st = Ok a st' → only_touches p st st'.

(** ** Errors *)

Definition text_error : Error :=
  SerializerError "Text nodes can't be dataclasses!".

(** A computation that never raises the error [e]. *)
Definition avoids {A} (e : Error) (m : M A) : Prop :=
  ∀ st, m st ≠ Raise e.

(** [render_node], run with [fuel] on [obj] under [parent] from the
    state [st], comes to a text field that holds a dataclass instance.
    Either [obj] is a dataclass instance, the fields before [var] have
    been processed and [var] is that text field; or [var] is an element
    field with a present value, the fields before it and the items
    before [val] have been processed, the child of [val] has been
    created, and [render_node] on [val] under that child comes to such a
    field. *)
Inductive reaches_text_record `{!Collaborators}
    : nat → Value → nat → State → Prop :=
| reaches_text_field fuel obj parent st cls fields vars1 var vars2 st1 value :
    record_view obj = Some (cls, fields) →
    ClassMeta.vars
      (class_meta cls (qn_namespace (Element.tag (heap st !!! parent))))
      = vars1 ++ var :: vars2 →
    for_each vars1
      (XmlSerializer.render_var (XmlSerializer.render_node fuel)
         (XmlSerializer.set_any_children fuel) fields parent) st
      = Ok tt st1 →
    PyDict.get (ClassVar.name var) fields = Some value →
    ClassVar.tag var = CText →
    is_dataclass value = true →
    reaches_text_record (S fuel) obj parent st
| reaches_through_item fuel obj parent st cls fields vars1 var vars2 st1
    value items1 val items2 st2 sub st3 :
    record_view obj = Some (cls, fields) →
    ClassMeta.vars
      (class_meta cls (qn_namespace (Element.tag (heap st !!! parent))))
      = vars1 ++ var :: vars2 →
    for_each vars1
      (XmlSerializer.render_var (XmlSerializer.render_node fuel)
         (XmlSerializer.set_any_children fuel) fields parent) st
      = Ok tt st1 →
    PyDict.get (ClassVar.name var) fields = Some value →
    is_not_None value = true →
    ClassVar.tag var = CElement →
    as_list value = items1 ++ val :: items2 →
    XmlSerializer.set_children (XmlSerializer.render_node fuel) parent
      (VList items1) var
      {| heap := heap st1;
         namespaces :=
           Namespaces.add (ClassVar.namespace var) None (namespaces st1) |}
      = Ok tt st2 →
    SubElement parent (ClassVar.qname var) st2 = Ok sub st3 →
    reaches_text_record fuel val sub st3 →
    reaches_text_record (S fuel) obj parent st.

(** A value the builder can take with [n] levels of recursion left: it
    is less deep than [n], or it is a list whose items are. *)
Definition fits (n : nat) (v : Value) : Prop :=
  depth v < n ∨ ∃ items, v = VList items ∧ depth v ≤ n.

(** ** The start of a render *)

(** The state in which [render_tree] starts the builder: the store with
    the new root appended, and a registry holding the root namespace. *)
Definition initial_state `{!Collaborators} (cls : string) (namespace : option string)
    (store : list Element.node) : State :=
  let meta := class_meta cls namespace in
  {| heap := store ++ [Element.new (ClassMeta.qname meta)];
     namespaces := Namespaces.add (ClassMeta.namespace meta) None Namespaces.fresh |}.

(** ** The store seen from a later object *)

(** The object [n] with its child references counted from [b]. *)
Definition unshift (b : nat) (n : Element.node) : Element.node :=
  {| Element.tag := Element.tag n; Element.attrib := Element.attrib n;
     Element.text := Element.text n; Element.tail := Element.tail n;
     Element.children := (λ c, c - b) <$> Element.children n |}.

(** The state seen from [b]: the objects allocated from [b] on. *)
Definition rebase (b : nat) (st : State) : State :=
  {| heap := unshift b <$> drop b (heap st); namespaces := namespaces st |}.

(** How a result of a computation is seen from [b]. *)
Class Rebase (A : Type) := rebase_val : nat → A → A.
#[global] Instance rebase_unit : Rebase unit := λ _ x, x.
#[global] Instance rebase_ref : Rebase nat := λ b r, r - b.
#[global] Instance rebase_node : Rebase Element.node := unshift.
#[global] Instance rebase_value : Rebase Value := λ _ v, v.

(** [m] on a state holding at least [b] objects does what [m'] does on
    that state seen from [b]. *)
Definition commutes {A} `{!Rebase A} (b : nat) (m m' : M A) : Prop :=
  ∀ st, b ≤ length (heap st) →
    match m st with
    | Ok a st' =>
        length (heap st) ≤ length (heap st') ∧
        m' (rebase b st) = Ok (rebase_val b a) (rebase b st')
    | Raise e => m' (rebase b st) = Raise e
    end.

(** ** What the builder keeps *)

(** Every successful run of [m] relates the state before to the state
    after by [R]. *)
Definition respects {A} (R : State → State → Prop) (m : M A) : Prop :=
  ∀ st a st', m st = Ok a st' → R st st'.

(** The assignments the builder makes to an element that exists:
    [element.text = x], [element.tail = x] and [element.set(k, v)]. *)
Inductive field_update : (Element.node → Element.node) → Prop :=
| update_text x : field_update (Element.with_text x)
| update_tail x : field_update (Element.with_tail x)
| update_attribute k v : field_update (Element.with_attribute k v).

(** The table of the registry in [st'] is the table in [st] followed by
    new entries. *)
Definition registry_extended (st st' : State) : Prop :=
  ∃ suffix,
    Namespaces.items (namespaces st')
      = Namespaces.items (namespaces st) ++ suffix.

(** Every element of [st] has in [st'] the children and the attribute
    keys it had, in the same order, possibly followed by new ones. *)
Definition content_kept (st st' : State) : Prop :=
  length (heap st) ≤ length (heap st') ∧
  ∀ i, i < length (heap st) →
    Element.children (heap st !!! i)
      `prefix_of` Element.children (heap st' !!! i) ∧
    PyDict.keys (Element.attrib (heap st !!! i))
      `prefix_of` PyDict.keys (Element.attrib (heap st' !!! i)).

(** A computation that returns on every state. *)
Definition succeeds {A} (m : M A) : Prop :=
  ∀ st, ∃ a st', m st = Ok a st'.

(** The values [to_xml] is meant for, and [None]. *)
Definition is_primitive (v : Value) : bool :=
  match v with
  | VNone | VBool _ | VInt _ | VStr _ => true
  | _ => false
  end.

(** The items [set_any_children] has no branch for. *)
Definition ignored_by_wildcard (v : Value) : bool :=
  match v with
  | VStr _ | VAnyText _ _ _ | VAnyElement _ _ _ _ => false
  | _ => true
  end.

(** The qualified names of the annotated elements among the items of a
    wildcard value, in the order of the items. *)
Definition wildcard_qnames (items : list Value) : list QName :=
  omap (λ v, match v with
             | VAnyElement qname _ _ _ => Some qname
             | _ => None
             end) items.

(** ** The scenarios of the specification *)

Module Scenario.

(** [ProductType(number=1, name="Shirt", size=10)], [color] left out. *)
Definition product (cls : string) : Value :=
  VData cls [("number", VInt 1); ("name", VStr "Shirt");
             ("size", VInt 10); ("color", VNone)].

(** A wildcard-element field holding
    [["lead ", AnyElement(qname="b", text="bold"), " trail"]]. *)
Definition mixed : Value :=
  VData "Mixed"
    [("content",
      VList [VStr "lead ";
             VAnyElement (mkQName None "b") (Some "bold") None [];
             VStr " trail"])].

(** A nillable text field left out, followed by an element field. *)
Definition note : Value :=
  VData "Note" [("value", VNone); ("author", VStr "me")].

(** A nillable element field holding the empty string. *)
Definition wrapper_of_empty_string : Value :=
  VData "Wrapper" [("item", VStr "")].

(** A nillable element field holding a record without fields. *)
Definition wrapper_of_empty_record : Value :=
  VData "Wrapper" [("item", VData "Empty" [])].

(** A text field holding a record instance. *)
Definition holder_of_record : Value :=
  VData "Holder" [("value", VData "Empty" [])].

(** A text field holding an annotated text. *)
Definition holder_of_text : Value :=
  VData "Holder" [("value", VAnyText (Some "t") [] [])].

(** An element field whose second item has a text field holding an
    annotated text. *)
Definition wrapper_of_holder : Value :=
  VData "Wrapper" [("item", VList [VStr "ok"; holder_of_text])].

(** An element field holding an annotated element. *)
Definition wrapper_of_element : Value :=
  VData "Wrapper"
    [("item", VAnyElement (mkQName None "b") (Some "bold") None [])].

(** An attribute field and an element field. *)
Definition tagged : Value :=
  VData "Tagged" [("id", VStr "7"); ("name", VStr "Shirt")].

Definition q (name : string) : QName := mkQName None name.

Definition xsi_nil : QName := mkQName (Some Sample.xsi) "nil".

Definition C := Sample.collaborators.

(** The store after scenario C was built in an empty store. *)
Definition mixed_store : list Element.node :=
  [ Element.mk (q "Mixed") [] (Some "lead ") (Some " trail") [1];
    Element.mk (q "b") [] (Some "bold") None [] ].

Definition mixed_tree : XmlSerializer.tree := XmlSerializer.mkTree 0 [] [].

(** The store of scenario C before its last item is processed. *)
Definition mixed_before_trail : State :=
  {| heap := [ Element.mk (q "Mixed") [] (Some "lead ") None [1];
               Element.mk (q "b") [] (Some "bold") None [] ];
     namespaces := Namespaces.fresh |}.

(** An annotated text declares [ns0] for one URI; a field namespace
    registered next is given the generated prefix [ns0] as well. *)
Definition shared_prefix_calls : list Namespaces.call :=
  [Namespaces.AddAll [(Some "ns0", Some "urn:a")]; Namespaces.Add (Some "urn:b") None].

Definition naming_calls : list (option string * option string) :=
  [(Some "urn:a", None); (Some Sample.xsi, None); (Some "urn:b", Some "p");
   (Some "urn:a", None); (Some "urn:c", Some ""); (None, None);
   (Some "urn:d", None)].

End Scenario.

(** * Theory *)

(** ** Dictionaries *)

Section dict_facts.
Context {K V : Type} `{EqDecision K}.
Implicit Types (k : K) (v : V) (d : list (K * V)).

Lemma truthy_Some_inv o : Py.truthy o = true → ∃ s, o = Some s ∧ s ≠ "".
Proof.
  destruct o as [s|]; simpl; [|discriminate].
  intros Hs. exists s. split; [reflexivity|].
  intros ->. discriminate.
Qed.

Lemma get_set_eq k v d : PyDict.get k (PyDict.set k v d) = Some v.
Proof.
  induction d as [|[k' v'] d IH]; simpl.
  - destruct (decide (k = k)); congruence.
  - destruct (decide (k = k')) as [->|Hne]; simpl.
    + destruct (decide (k' = k')); congruence.
    + destruct (decide (k = k')); congruence.
Qed.

Lemma get_set_ne k k' v d :
  k ≠ k' → PyDict.get k' (PyDict.set k v d) = PyDict.get k' d.
Proof.
  intros Hne. induction d as [|[k0 v0] d IH]; simpl.
  - destruct (decide (k' = k)); congruence.
  - destruct (decide (k = k0)) as [->|H0]; simpl.
    + destruct (decide (k' = k0)); congruence.
    + destruct (decide (k' = k0)); congruence.
Qed.

Lemma contains_true k d :
  PyDict.contains k d = true ↔ ∃ v, PyDict.get k d = Some v.
Proof.
  unfold PyDict.contains. destruct (PyDict.get k d) as [v|].
  - split; eauto.
  - split; [discriminate|]. intros [v Hv]. discriminate.
Qed.

Lemma contains_false k d :
  PyDict.contains k d = false ↔ PyDict.get k d = None.
Proof.
  unfold PyDict.contains. destruct (PyDict.get k d); split; congruence.
Qed.

Lemma get_None_not_key k d : PyDict.get k d = None → k ∉ PyDict.keys d.
Proof.
  induction d as [|[k' v'] d IH]; simpl.
  - intros _ Hin. inversion Hin.
  - destruct (decide (k = k')) as [->|Hne]; [discriminate|].
    intros Hg Hin. apply elem_of_cons in Hin as [?|Hin]; [congruence|].
    by apply IH.
Qed.

Lemma keys_set_fresh k v d :
  PyDict.get k d = None → PyDict.keys (PyDict.set k v d) = PyDict.keys d ++ [k].
Proof.
  induction d as [|[k' v'] d IH]; simpl; [reflexivity|].
  destruct (decide (k = k')) as [->|Hne]; [discriminate|].
  intros Hg. simpl. f_equal. by apply IH.
Qed.

Lemma keys_set_NoDup k v d :
  PyDict.get k d = None → NoDup (PyDict.keys d) →
  NoDup (PyDict.keys (PyDict.set k v d)).
Proof.
  intros Hg Hnd. rewrite keys_set_fresh by done.
  apply NoDup_app. split; [done|]. split.
  - intros x Hx Hin. apply list_elem_of_singleton in Hin as ->.
    by apply (get_None_not_key _ _ Hg).
  - apply NoDup_singleton.
Qed.

End dict_facts.

(** ** The registry *)

Section registry_facts.
Context `{!Collaborators}.
Import Namespaces.
Implicit Types (self : Namespaces.t) (uri prefix : option string).

Lemma add_unregistered u prefix self :
  u ≠ "" → PyDict.get u (items self) = None →
  add (Some u) prefix self =
    match get_enum u with
    | Some p => mk (PyDict.set u p (items self)) (auto_ns self)
    | None =>
        if Py.truthy prefix
        then mk (PyDict.set u (default "" prefix) (items self)) (auto_ns self)
        else mk (PyDict.set u ("ns" +:+ pretty (auto_ns self)) (items self))
                (auto_ns self + 1)
    end.
Proof.
  intros Hu Hg. unfold add. simpl.
  apply contains_false in Hg. rewrite Hg.
  destruct (String.eqb_spec u "") as [?|_]; [done|]. simpl.
  destruct (get_enum u); [done|].
  by destruct (Py.truthy prefix).
Qed.

Lemma add_registered u prefix self :
  PyDict.contains u (items self) = true → add (Some u) prefix self = self.
Proof. intros Hc. unfold add. rewrite Hc. by rewrite andb_false_r. Qed.

Lemma add_empty prefix self : add (Some "") prefix self = self.
Proof. reflexivity. Qed.

Lemma add_cases uri prefix self :
  add uri prefix self = self ∨
  ∃ u p n, uri = Some u ∧ u ≠ "" ∧ PyDict.get u (items self) = None ∧
           add uri prefix self = mk (PyDict.set u p (items self)) n.
Proof.
  destruct uri as [u|]; [|by left].
  destruct (decide (u = "")) as [->|Hu]; [by left|].
  destruct (PyDict.get u (items self)) as [p|] eqn:Hg.
  - left. apply add_registered. apply contains_true. eauto.
  - right. rewrite add_unregistered by done.
    destruct (get_enum u) as [p|]; [by eauto 10|].
    destruct (Py.truthy prefix); by eauto 10.
Qed.

Lemma add_keeps u p uri prefix self :
  PyDict.get u (items self) = Some p →
  PyDict.get u (items (add uri prefix self)) = Some p.
Proof.
  intros Hg.
  destruct (add_cases uri prefix self) as [->|(u'&p'&n&_&_&Hnone&->)]; [done|].
  simpl. rewrite get_set_ne; [done|]. intros ->. congruence.
Qed.

Lemma add_NoDup uri prefix self :
  NoDup (PyDict.keys (items self)) →
  NoDup (PyDict.keys (items (add uri prefix self))).
Proof.
  intros Hnd.
  destruct (add_cases uri prefix self) as [->|(u'&p'&n&_&_&Hnone&->)]; [done|].
  simpl. by apply keys_set_NoDup.
Qed.

Lemma add_all_keeps u p ns_map self :
  PyDict.get u (items self) = Some p →
  PyDict.get u (items (add_all ns_map self)) = Some p.
Proof.
  unfold add_all. revert self.
  induction ns_map as [|[prefix uri] ns_map IH]; intros self Hg; simpl; [done|].
  apply IH. by apply add_keeps.
Qed.

Lemma add_all_NoDup ns_map self :
  NoDup (PyDict.keys (items self)) →
  NoDup (PyDict.keys (items (add_all ns_map self))).
Proof.
  unfold add_all. revert self.
  induction ns_map as [|[prefix uri] ns_map IH]; intros self Hnd; simpl; [done|].
  apply IH. by apply add_NoDup.
Qed.

Lemma run_keeps u p calls self :
  PyDict.get u (items self) = Some p →
  PyDict.get u (items (run calls self)) = Some p.
Proof.
  unfold run. revert self.
  induction calls as [|c calls IH]; intros self Hg; simpl; [done|].
  apply IH. destruct c; simpl; [by apply add_keeps | by apply add_all_keeps].
Qed.

Lemma run_NoDup calls self :
  NoDup (PyDict.keys (items self)) →
  NoDup (PyDict.keys (items (run calls self))).
Proof.
  unfold run. revert self.
  induction calls as [|c calls IH]; intros self Hnd; simpl; [done|].
  apply IH. destruct c; simpl; [by apply add_NoDup | by apply add_all_NoDup].
Qed.

(** C4, as the code has it. Whatever [add] and [add_all] calls are made
    on a registry created by [Namespaces()], its URIs stay distinct
    keys, and a URI that has a prefix at some point keeps that very
    prefix through all later calls: the first registration wins. *)
Theorem registry_first_registration_wins
    (earlier later : list call) (u p : string) :
  NoDup (PyDict.keys (items (run later (run earlier fresh)))) ∧
  (PyDict.get u (items (run earlier fresh)) = Some p →
   PyDict.get u (items (run later (run earlier fresh))) = Some p).
Proof.
  split.
  - do 2 apply run_NoDup. apply NoDup_nil_2.
  - apply run_keeps.
Qed.

(** C6. A URI of the catalog that is not registered yet gets the
    catalog's prefix, whatever prefix the caller passes; the counter of
    generated prefixes does not move. *)
Theorem add_well_known_prefix (u : string) prefix self (p : string) :
  u ≠ "" →
  PyDict.get u (items self) = None →
  get_enum u = Some p →
  PyDict.get u (items (add (Some u) prefix self)) = Some p ∧
  auto_ns (add (Some u) prefix self) = auto_ns self.
Proof.
  intros Hu Hg Hwk. rewrite add_unregistered by done. rewrite Hwk. simpl.
  split; [apply get_set_eq | done].
Qed.

End registry_facts.

Section auto_naming.
Context `{!Collaborators}.
Import Namespaces.

Lemma contains_after_add (u x : string) (p : string) (seen : list string) self :
  (∀ y, y ∈ seen ↔ PyDict.contains y (items self) = true) →
  x ∈ u :: seen ↔ PyDict.contains x (PyDict.set u p (items self)) = true.
Proof.
  intros Hseen. rewrite elem_of_cons, Hseen, !contains_true.
  destruct (decide (u = x)) as [->|Hne].
  - rewrite get_set_eq. split; eauto.
  - rewrite get_set_ne by done. split; [intros [?|?]; [congruence|done] | eauto].
Qed.

Lemma auto_named_prefix (calls : list (option string * option string)) :
  ∀ (seen : list string) self (k : nat) (u : string),
    (∀ y, y ∈ seen ↔ PyDict.contains y (items self) = true) →
    auto_named seen calls !! k = Some u →
    PyDict.get u (items (run (adds calls) self))
      = Some ("ns" +:+ pretty (auto_ns self + k)).
Proof.
  induction calls as [|[uri prefix] calls IH]; intros seen self k u Hseen Hk.
  - destruct k; discriminate.
  - simpl in Hk. unfold adds, run in *. simpl.
    destruct uri as [u0|]; [|by apply (IH seen)].
    destruct (decide (u0 = "")) as [->|Hne].
    { rewrite bool_decide_eq_true_2 in Hk by done. simpl in Hk.
      rewrite add_empty. by apply (IH seen). }
    rewrite (bool_decide_eq_false_2 (u0 = "")) in Hk by done. simpl in Hk.
    destruct (decide (u0 ∈ seen)) as [Hin|Hnin].
    { rewrite bool_decide_eq_true_2 in Hk by done.
      rewrite add_registered by by apply Hseen. by apply (IH seen). }
    rewrite (bool_decide_eq_false_2 (u0 ∈ seen)) in Hk by done.
    assert (PyDict.get u0 (items self) = None) as Hnone.
    { apply contains_false. destruct (PyDict.contains u0 (items self)) eqn:E; [|done].
      exfalso. by apply Hnin, Hseen. }
    rewrite add_unregistered by done.
    destruct (get_enum u0) as [p|] eqn:Hwk.
    { rewrite bool_decide_eq_true_2 in Hk by eauto. simpl in Hk.
      apply (IH (u0 :: seen) (mk _ _) k u); [|done].
      intros y. by apply contains_after_add. }
    rewrite bool_decide_eq_false_2 in Hk by (intros [? ?]; discriminate).
    simpl in Hk. destruct (Py.truthy prefix) eqn:Hp.
    { apply (IH (u0 :: seen) (mk _ _) k u); [|done].
      intros y. by apply contains_after_add. }
    destruct k as [|k]; simpl in Hk.
    + injection Hk as ->. rewrite Nat.add_0_r.
      apply (run_keeps u _ (adds calls)). simpl. apply get_set_eq.
    + replace (auto_ns self + S k) with (auto_ns self + 1 + k) by lia.
      apply (IH (u0 :: seen) (mk _ _) k u); [|done].
      intros y. by apply contains_after_add.
Qed.

(** C7. In a sequence of [add] calls on a new registry, the [k]-th URI
    that comes unregistered, outside the catalog and without a prefix
    from the caller is registered under [ns] followed by [k]: [ns0],
    [ns1], [ns2] and so on, in the order the URIs are met. *)
Theorem auto_naming_order (calls : list (option string * option string))
    (k : nat) (u : string) :
  auto_named [] calls !! k = Some u →
  PyDict.get u (items (run (adds calls) fresh)) = Some ("ns" +:+ pretty k).
Proof.
  intros Hk. apply (auto_named_prefix calls [] fresh k u); [|done].
  intros y. simpl. split; [intros Hy; inversion Hy | discriminate].
Qed.

End auto_naming.

(** ** The nil check *)

Section nil_check.
Context `{!Collaborators}.
Import XmlSerializer.

Lemma set_nil_attribute_eq var element st :
  set_nil_attribute var element st =
    if decide (nil_condition var (heap st !!! element)) then
      Ok tt {| heap := alter (Element.with_attribute nil_qname "true") element (heap st);
               namespaces := Namespaces.add (Some XSI_uri) (Some XSI_prefix)
                               (namespaces st) |}
    else Ok tt st.
Proof.
  unfold set_nil_attribute, bind, deref.
  destruct (decide (nil_condition var (heap st !!! element)))
    as [(Hn & Ht & Hc)|Hnot].
  - rewrite Hn, Ht, Hc. reflexivity.
  - destruct (ClassVar.is_nillable var) eqn:Hn; [|done].
    destruct (Element.text (heap st !!! element)) as [s|] eqn:Ht; [done|].
    destruct (Element.children (heap st !!! element)) as [|c cs] eqn:Hc; [|done].
    exfalso. apply Hnot. unfold nil_condition. by rewrite Hn, Ht, Hc.
Qed.

Lemma set_count_one (k : QName) (v : string) (d : list (QName * string)) :
  NoDup (PyDict.keys d) →
  length (filter (λ kv, fst kv = k) (PyDict.set k v d)) = 1.
Proof.
  induction d as [|[k' v'] d IH]; intros Hnd; simpl.
  - rewrite filter_cons_True by done. reflexivity.
  - apply NoDup_cons in Hnd as [Hk' Hnd].
    destruct (decide (k = k')) as [->|Hne].
    + rewrite filter_cons_True by done. simpl. f_equal.
      destruct (filter (λ kv, fst kv = k') d) as [|[k0 v0] rest] eqn:Hf; [done|].
      exfalso. apply Hk'.
      assert ((k0, v0) ∈ filter (λ kv, fst kv = k') d) as Hin
        by (rewrite Hf; apply list_elem_of_here).
      apply list_elem_of_filter in Hin as [Heq Hin]. simpl in Heq. subst k0.
      apply list_elem_of_fmap. exists (k', v0). done.
    + rewrite filter_cons_False by (simpl; congruence). by apply IH.
Qed.

End nil_check.

(** ** What a computation does to the store *)

Section store_facts.

Lemma bind_Ok_inv {A B} (m : M A) (k : A → M B) st b st' :
  bind m k st = Ok b st' → ∃ a st1, m st = Ok a st1 ∧ k a st1 = Ok b st'.
Proof. unfold bind. destruct (m st) as [a st1|e]; [eauto|discriminate]. Qed.

Lemma bind_Raise_inv {A B} (m : M A) (k : A → M B) st e :
  bind m k st = Raise e →
  m st = Raise e ∨ ∃ a st1, m st = Ok a st1 ∧ k a st1 = Raise e.
Proof. unfold bind. destruct (m st) as [a st1|e']; [eauto|]. intros [= ->]. by left. Qed.

Lemma bind_ret_eq {A B} (a : A) (k : A → M B) st :
  bind (ret a) k st = k a st.
Proof. reflexivity. Qed.

Lemma bind_on_namespaces_eq {B} f (k : unit → M B) st :
  bind (on_namespaces f) k st
    = k tt {| heap := heap st; namespaces := f (namespaces st) |}.
Proof. reflexivity. Qed.

Lemma for_each_app {A} (l1 l2 : list A) (body : A → M unit) st :
  for_each (l1 ++ l2) body st = (for_each l1 body ;; for_each l2 body) st.
Proof.
  revert st. induction l1 as [|x l1 IH]; intros st; simpl.
  - reflexivity.
  - unfold bind in *. destruct (body x st) as [[] st1|e]; [apply IH|done].
Qed.

Lemma lookup_total_ge (l : list Element.node) i :
  length l ≤ i → l !!! i = inhabitant.
Proof.
  intros Hi. rewrite list_lookup_total_alt.
  by rewrite (lookup_ge_None_2 l i Hi).
Qed.

Lemma only_touches_refl p st : only_touches p st st.
Proof. repeat split; auto. Qed.

Lemma only_touches_step p q st st1 st2 :
  only_touches p st st1 →
  q = p ∨ length (heap st) ≤ q →
  only_touches q st1 st2 →
  only_touches p st st2.
Proof.
  intros (Hl1 & Hs1 & Ht1 & Hc1) Hq (Hl2 & Hs2 & Ht2 & Hc2).
  repeat split.
  - lia.
  - intros i Hi Hne. rewrite Hs2; [by apply Hs1|lia|]. destruct Hq; [congruence|lia].
  - intros i Hi. rewrite Ht2 by lia. by apply Ht1.
  - intros i c Hc. apply Hc2 in Hc as [Hc|Hc]; [|right; lia].
    apply Hc1 in Hc as [Hc|Hc]; [by left|right; lia].
Qed.

Lemma only_touches_trans p st st1 st2 :
  only_touches p st st1 → only_touches p st1 st2 → only_touches p st st2.
Proof. intros H1 H2. by eapply only_touches_step; [exact H1|left|exact H2]. Qed.

Lemma touches_ret {A} p (a : A) : touches_only p (ret a).
Proof. intros st a' st' [= <- <-]. apply only_touches_refl. Qed.

Lemma touches_raise {A} p e : touches_only p (@raise A e).
Proof. intros st a st' [=]. Qed.

Lemma touches_bind {A B} p (m : M A) (k : A → M B) :
  touches_only p m → (∀ a, touches_only p (k a)) → touches_only p (bind m k).
Proof.
  intros Hm Hk st b st' Hb. apply bind_Ok_inv in Hb as (a & st1 & H1 & H2).
  eapply only_touches_trans; [by eapply Hm | by eapply Hk].
Qed.

Lemma touches_for_each {A} p (l : list A) (body : A → M unit) :
  (∀ x, x ∈ l → touches_only p (body x)) → touches_only p (for_each l body).
Proof.
  induction l as [|x l IH]; intros Hbody; simpl.
  - apply touches_ret.
  - apply touches_bind.
    + apply Hbody. apply list_elem_of_here.
    + intros _. apply IH. intros y Hy. apply Hbody. by apply list_elem_of_further.
Qed.

Lemma touches_deref p r : touches_only p (deref r).
Proof. intros st a st' [= <- <-]. apply only_touches_refl. Qed.

Lemma touches_on_namespaces p f : touches_only p (on_namespaces f).
Proof. intros st a st' [= <- <-]. repeat split; auto. Qed.

Lemma touches_getattr p fields name : touches_only p (getattr fields name).
Proof.
  unfold getattr. destruct (PyDict.get name fields); [apply touches_ret|apply touches_raise].
Qed.

(** A mutation of [p] that leaves tag and children alone. *)
Lemma touches_mutate p (f : Element.node → Element.node) :
  (∀ n, Element.tag (f n) = Element.tag n) →
  (∀ n, Element.children (f n) = Element.children n) →
  touches_only p (mutate p f).
Proof.
  intros Htag Hch st [] st' [= <-]. repeat split; simpl.
  - by rewrite length_alter.
  - intros i Hi Hne. by apply list_lookup_alter_ne.
  - intros i Hi. destruct (decide (i = p)) as [->|Hne].
    + rewrite list_lookup_total_alter_eq by done. apply Htag.
    + by rewrite list_lookup_total_alter_ne.
  - intros i c Hc. left. destruct (decide (i = p)) as [->|Hne].
    + destruct (decide (p < length (heap st))).
      * rewrite list_lookup_total_alter_eq in Hc by done. by rewrite Hch in Hc.
      * rewrite lookup_total_ge in Hc by (rewrite length_alter; lia).
        inversion Hc.
    + by rewrite list_lookup_total_alter_ne in Hc.
Qed.

(** [SubElement] followed by work on the new element only. *)
Lemma touches_SubElement {A} p qname (body : nat → M A) :
  (∀ sub, touches_only sub (body sub)) →
  touches_only p (bind (SubElement p qname) body).
Proof.
  intros Hbody st a st' Hrun.
  unfold SubElement, bind, Element, mutate, ret in Hrun. simpl in Hrun.
  eapply only_touches_step; [|right; reflexivity|by eapply Hbody].
  repeat split; simpl.
  - rewrite length_alter, length_app. lia.
  - intros i Hi Hne. rewrite list_lookup_alter_ne by done.
    by rewrite lookup_app_l.
  - intros i Hi. destruct (decide (i = p)) as [->|Hne].
    + rewrite list_lookup_total_alter_eq by (rewrite length_app; lia).
      simpl. by rewrite lookup_total_app_l.
    + rewrite list_lookup_total_alter_ne by done. by rewrite lookup_total_app_l.
  - intros i c Hc. destruct (decide (i < length (heap st))) as [Hi|Hi].
    + destruct (decide (i = p)) as [->|Hne].
      * rewrite list_lookup_total_alter_eq in Hc by (rewrite length_app; lia).
        simpl in Hc. rewrite lookup_total_app_l in Hc by done.
        apply elem_of_app in Hc as [Hc|Hc]; [by left|].
        apply list_elem_of_singleton in Hc as ->. right.
        rewrite length_alter, length_app. simpl. lia.
      * rewrite list_lookup_total_alter_ne in Hc by done.
        rewrite lookup_total_app_l in Hc by done. by left.
    + right. destruct (decide (i = p)) as [->|Hne].
      * destruct (decide (p = length (heap st))) as [Hp|Hp].
        -- rewrite list_lookup_total_alter_eq in Hc by (rewrite length_app; simpl; lia).
           rewrite Hp in Hc. rewrite list_lookup_total_middle in Hc by done.
           simpl in Hc. apply list_elem_of_singleton in Hc as ->.
           rewrite length_alter, length_app. simpl. lia.
        -- rewrite lookup_total_ge in Hc
             by (rewrite length_alter, length_app; simpl; lia).
           inversion Hc.
      * rewrite list_lookup_total_alter_ne in Hc by done.
        destruct (decide (i = length (heap st))) as [->|Hi'].
        -- rewrite list_lookup_total_middle in Hc by done. inversion Hc.
        -- rewrite lookup_total_ge in Hc by (rewrite length_app; simpl; lia).
           inversion Hc.
Qed.

End store_facts.

(** ** The builder mutates its parent in place *)

Section builder_frame.
Context `{!Collaborators}.
Import XmlSerializer.

Ltac touches_field :=
  apply touches_mutate; intros n; reflexivity.

(** The two branches of [render_node]. *)
Lemma render_node_view fuel obj cls fields parent st :
  record_view obj = Some (cls, fields) →
  render_node (S fuel) obj parent st =
    match
      for_each
        (ClassMeta.vars
           (class_meta cls (qn_namespace (Element.tag (heap st !!! parent)))))
        (render_var (render_node fuel) (set_any_children fuel) fields parent)
        st
    with
    | Ok _ st' => Ok parent st'
    | Raise e => Raise e
    end.
Proof. intros Hview. simpl. rewrite Hview. reflexivity. Qed.

Lemma render_node_plain fuel obj parent st :
  record_view obj = None →
  render_node (S fuel) obj parent st =
    Ok parent
       {| heap := alter (Element.with_text (Some (to_xml obj))) parent (heap st);
          namespaces := namespaces st |}.
Proof. intros Hview. simpl. rewrite Hview. reflexivity. Qed.

Lemma is_dataclass_view obj :
  is_dataclass obj = match record_view obj with Some _ => true | None => false end.
Proof. by destruct obj. Qed.

Lemma touches_set_attribute p value var : touches_only p (set_attribute p value var).
Proof. unfold set_attribute. touches_field. Qed.

Lemma touches_set_attributes p values : touches_only p (set_attributes p values).
Proof.
  unfold set_attributes. destruct values; try apply touches_raise.
  apply touches_for_each. intros x _. touches_field.
Qed.

Lemma touches_set_text p value : touches_only p (set_text p value).
Proof. unfold set_text. touches_field. Qed.

Lemma touches_set_nil_attribute p var : touches_only p (set_nil_attribute var p).
Proof.
  unfold set_nil_attribute. apply touches_bind; [apply touches_deref|].
  intros e. destruct (_ && _); [|apply touches_ret].
  apply touches_bind; [apply touches_on_namespaces|]. intros _. touches_field.
Qed.

Lemma touches_set_any_child self p val :
  (∀ q v, touches_only q (self q v)) →
  touches_only p (set_any_child self p val).
Proof.
  intros Hself. destruct val; simpl; try apply touches_ret.
  - apply touches_bind; [apply touches_deref|]. intros e.
    destruct (Py.truthy _); touches_field.
  - apply touches_bind; [touches_field|]. intros _.
    apply touches_bind; [apply touches_on_namespaces|]. intros _.
    apply (touches_set_attributes p (VDict _)).
  - apply touches_bind; [apply touches_on_namespaces|]. intros _.
    apply touches_SubElement. intros sub.
    apply touches_bind; [touches_field|]. intros _.
    apply touches_bind; [touches_field|]. intros _.
    apply touches_for_each. intros child _. apply Hself.
Qed.

Lemma touches_set_any_children fuel :
  ∀ p value, touches_only p (set_any_children fuel p value).
Proof.
  induction fuel as [|fuel IH]; intros p value; simpl.
  - apply touches_raise.
  - apply touches_for_each. intros val _. by apply touches_set_any_child.
Qed.

Lemma touches_set_children rn p value var :
  (∀ v q, touches_only q (rn v q)) →
  touches_only p (set_children rn p value var).
Proof.
  intros Hrn. unfold set_children. apply touches_for_each. intros val _.
  apply touches_SubElement. intros sub.
  apply touches_bind; [apply Hrn|]. intros _. apply touches_set_nil_attribute.
Qed.

Lemma touches_render_var rn sac fields p var :
  (∀ v q, touches_only q (rn v q)) →
  (∀ q v, touches_only q (sac q v)) →
  touches_only p (render_var rn sac fields p var).
Proof.
  intros Hrn Hsac. unfold render_var.
  apply touches_bind; [apply touches_getattr|]. intros value.
  destruct (is_not_None value).
  - apply touches_bind.
    { destruct (negb _); [apply touches_on_namespaces|apply touches_ret]. }
    intros _.
    destruct (ClassVar.is_attribute var); [apply touches_set_attribute|].
    destruct (ClassVar.is_any_attribute var); [apply touches_set_attributes|].
    destruct (ClassVar.is_any_element var); [apply Hsac|].
    destruct (ClassVar.is_text var).
    + destruct (is_dataclass value); [apply touches_raise|apply touches_set_text].
    + by apply touches_set_children.
  - destruct (ClassVar.is_text var);
      [apply touches_set_nil_attribute|apply touches_ret].
Qed.

Lemma touches_render_node fuel :
  ∀ obj p, touches_only p (render_node fuel obj p).
Proof.
  induction fuel as [|fuel IH]; intros obj p; simpl.
  - apply touches_raise.
  - assert (touches_only p
      (mutate p (Element.with_text (Some (to_xml obj))) ;; ret p)) as Hleaf.
    { apply touches_bind; [touches_field|]. intros _. apply touches_ret. }
    destruct (record_view obj) as [[cls fields]|]; [|exact Hleaf].
    apply touches_bind; [apply touches_deref|]. intros e.
    apply touches_bind; [|intros _; apply touches_ret].
    apply touches_for_each. intros var _.
    apply touches_render_var; [exact IH|apply touches_set_any_children].
Qed.

Lemma for_each_returns {A B} (l : list A) (body : A → M unit) (r : B) st r' st' :
  (for_each l body ;; ret r) st = Ok r' st' → r' = r.
Proof.
  intros Hrun. apply bind_Ok_inv in Hrun as (a & st1 & _ & Hret).
  by injection Hret as -> _.
Qed.

Lemma render_node_result fuel obj parent st r st' :
  render_node fuel obj parent st = Ok r st' → r = parent.
Proof.
  destruct fuel as [|fuel]; simpl; [discriminate|].
  assert ((mutate parent (Element.with_text (Some (to_xml obj))) ;; ret parent) st
          = Ok r st' → r = parent) as Hleaf.
  { intros Hrun. by injection Hrun as -> _. }
  destruct (record_view obj) as [[cls fields]|]; [|exact Hleaf].
  intros Hrun. apply bind_Ok_inv in Hrun as (e & st1 & _ & Hrun).
  by apply for_each_returns in Hrun.
Qed.

End builder_frame.

(** ** Where the serializer error comes from *)

Section errors.
Context `{!Collaborators}.
Import XmlSerializer.

Lemma for_each_Raise_inv {A} (l : list A) (body : A → M unit) st e :
  for_each l body st = Raise e → ∃ x st1, x ∈ l ∧ body x st1 = Raise e.
Proof.
  revert st. induction l as [|x l IH]; intros st; simpl; [discriminate|].
  intros Hrun. apply bind_Raise_inv in Hrun as [Hx|(a & st1 & _ & Hrest)].
  - exists x, st. split; [apply list_elem_of_here|done].
  - apply IH in Hrest as (y & st2 & Hy & Hrun). exists y, st2.
    split; [by apply list_elem_of_further|done].
Qed.

(** A loop that raises does so at some item, the items before it done. *)
Lemma for_each_Raise_split {A} (l : list A) (body : A → M unit) st e :
  for_each l body st = Raise e →
  ∃ l1 x l2 st1,
    l = l1 ++ x :: l2 ∧ for_each l1 body st = Ok tt st1 ∧
    body x st1 = Raise e.
Proof.
  revert st. induction l as [|x l IH]; intros st; simpl; [discriminate|].
  intros Hrun. apply bind_Raise_inv in Hrun as [Hx|([] & st1 & Hx & Hrest)].
  - by exists [], x, l, st.
  - apply IH in Hrest as (l1 & y & l2 & st2 & -> & Hpre & Hy).
    exists (x :: l1), y, l2, st2. split; [done|]. split; [|done].
    simpl. unfold bind. by rewrite Hx.
Qed.

Lemma for_each_Raise_at {A} (l1 l2 : list A) (x : A) (body : A → M unit) st st1 e :
  for_each l1 body st = Ok tt st1 → body x st1 = Raise e →
  for_each (l1 ++ x :: l2) body st = Raise e.
Proof.
  intros H1 Hx. rewrite for_each_app. unfold bind. rewrite H1. simpl.
  unfold bind. by rewrite Hx.
Qed.

Lemma avoids_ret {A} e (a : A) : avoids e (ret a).
Proof. intros st. discriminate. Qed.

Lemma avoids_raise {A} e e' : e ≠ e' → avoids e (@raise A e').
Proof. intros Hne st [= ->]. done. Qed.

Lemma avoids_bind {A B} e (m : M A) (k : A → M B) :
  avoids e m → (∀ a, avoids e (k a)) → avoids e (bind m k).
Proof.
  intros Hm Hk st Hrun.
  apply bind_Raise_inv in Hrun as [Hrun|(a & st1 & _ & Hrun)].
  - by apply Hm in Hrun.
  - by apply Hk in Hrun.
Qed.

Lemma avoids_for_each {A} e (l : list A) (body : A → M unit) :
  (∀ x, x ∈ l → avoids e (body x)) → avoids e (for_each l body).
Proof.
  intros Hbody st Hrun.
  apply for_each_Raise_inv in Hrun as (x & st1 & Hx & Hrun).
  by apply (Hbody x Hx) in Hrun.
Qed.

Lemma avoids_mutate e r f : avoids e (mutate r f).
Proof. intros st. discriminate. Qed.

Lemma avoids_deref e r : avoids e (deref r).
Proof. intros st. discriminate. Qed.

Lemma avoids_on_namespaces e f : avoids e (on_namespaces f).
Proof. intros st. discriminate. Qed.

Lemma avoids_SubElement e p qname : avoids e (SubElement p qname).
Proof. intros st. discriminate. Qed.

Lemma avoids_set_attributes_dict e p entries :
  avoids e (set_attributes p (VDict entries)).
Proof. apply avoids_for_each. intros x _. apply avoids_mutate. Qed.

Lemma avoids_set_attributes e p values :
  e ≠ AttributeError → avoids e (set_attributes p values).
Proof.
  intros He. destruct values; try by apply avoids_raise.
  apply avoids_set_attributes_dict.
Qed.

Lemma avoids_set_nil_attribute e var p : avoids e (set_nil_attribute var p).
Proof. intros st. rewrite set_nil_attribute_eq. by destruct (decide _). Qed.

Lemma depth_elem val (l : list Value) :
  val ∈ l → depth val ≤ foldr (λ x acc, depth x `max` acc) 0 l.
Proof.
  induction l as [|x l IH]; intros Hin; [inversion Hin|].
  apply elem_of_cons in Hin as [->|Hin]; simpl; [lia|].
  specialize (IH Hin). lia.
Qed.

Lemma depth_as_list val value : val ∈ as_list value → depth val ≤ depth value.
Proof.
  destruct value; simpl; intros Hin;
    try (apply list_elem_of_singleton in Hin as ->; simpl; lia).
  apply depth_elem in Hin. lia.
Qed.

Lemma depth_child child qname text tail children :
  child ∈ children → depth child < depth (VAnyElement qname text tail children).
Proof. intros Hin. apply depth_elem in Hin. simpl. lia. Qed.

Lemma depth_field name v cls fields :
  PyDict.get name fields = Some v → depth v < depth (VData cls fields).
Proof.
  simpl. induction fields as [|[k x] fields IH]; simpl; [discriminate|].
  destruct (decide (name = k)).
  - intros [= ->]. lia.
  - intros Hget. specialize (IH Hget). lia.
Qed.

Lemma fits_item n value val : fits n value → val ∈ as_list value → depth val < n.
Proof.
  intros [Hlt|(items & -> & Hle)] Hin.
  - apply depth_as_list in Hin. lia.
  - simpl in *. apply depth_elem in Hin. lia.
Qed.

(** The attributes of a dataclass instance fit the recursion left once
    the instance has been entered. *)
Lemma record_view_fits obj cls fields name v n :
  record_view obj = Some (cls, fields) →
  PyDict.get name fields = Some v →
  depth obj ≤ n → fits n v.
Proof.
  destruct obj; try discriminate; intros [= <- <-] Hget Hn.
  - left. simpl in Hget, Hn. repeat case_decide; simplify_eq;
      try destruct text; simpl; lia.
  - simpl in Hget. repeat case_decide; simplify_eq;
      try (left; try destruct text; try destruct tail; simpl in *; lia).
    right. by exists children.
  - left. pose proof (depth_field name v "" _ Hget) as Hv. simpl in *. lia.
Qed.

(** [set_any_children] raises nothing but a recursion error, and that
    only for a value nested deeper than the fuel. *)
Lemma avoids_set_any_children e fuel :
  ∀ p value,
    e ≠ RecursionError ∨ fits fuel value →
    avoids e (set_any_children fuel p value).
Proof.
  induction fuel as [|fuel IH]; intros p value He; simpl.
  - apply avoids_raise. destruct He as [He|[He|(items & -> & He)]]; [done|lia|].
    simpl in He. lia.
  - apply avoids_for_each. intros val Hval.
    assert (e ≠ RecursionError ∨ depth val < S fuel) as Hval'.
    { destruct He as [He|He]; [by left|right]. by apply (fits_item _ value). }
    clear Hval. rename Hval' into Hval.
    destruct val; simpl; try apply avoids_ret.
    + apply avoids_bind; [apply avoids_deref|]. intros n.
      destruct (Py.truthy _); apply avoids_mutate.
    + apply avoids_bind; [apply avoids_mutate|]. intros _.
      apply avoids_bind; [apply avoids_on_namespaces|]. intros _.
      apply avoids_set_attributes_dict.
    + apply avoids_bind; [apply avoids_on_namespaces|]. intros _.
      apply avoids_bind; [apply avoids_SubElement|]. intros sub.
      apply avoids_bind; [apply avoids_mutate|]. intros _.
      apply avoids_bind; [apply avoids_mutate|]. intros _.
      apply avoids_for_each. intros child Hchild. apply IH.
      destruct Hval as [Hval|Hval]; [by left|right]. left.
      apply (depth_child _ qname text tail) in Hchild. lia.
Qed.

Lemma avoids_recursion_set_children rn p value var n :
  (∀ v q, depth v < n → avoids RecursionError (rn v q)) →
  fits n value →
  avoids RecursionError (set_children rn p value var).
Proof.
  intros Hrn Hdepth. unfold set_children.
  apply avoids_for_each. intros val Hval. apply (fits_item n) in Hval; [|done].
  apply avoids_bind; [apply avoids_SubElement|]. intros sub.
  apply avoids_bind; [by apply Hrn|]. intros _. apply avoids_set_nil_attribute.
Qed.

Lemma avoids_recursion_render_var rn sac fields p var n :
  (∀ v q, depth v < n → avoids RecursionError (rn v q)) →
  (∀ q v, fits n v → avoids RecursionError (sac q v)) →
  (∀ name v, PyDict.get name fields = Some v → fits n v) →
  avoids RecursionError (render_var rn sac fields p var).
Proof.
  intros Hrn Hsac Hfields. unfold render_var, getattr.
  destruct (PyDict.get (ClassVar.name var) fields) as [value|] eqn:Hget.
  2: { intros st. discriminate. }
  apply Hfields in Hget.
  intros st. change (bind (ret value) ?k st) with (k value st). revert st.
  change (avoids RecursionError
    (if is_not_None value then
       (if negb (ClassVar.is_any_element var)
        then on_namespaces (Namespaces.add (ClassVar.namespace var) None)
        else ret tt) ;;
       if ClassVar.is_attribute var then set_attribute p value var
       else if ClassVar.is_any_attribute var then set_attributes p value
       else if ClassVar.is_any_element var then sac p value
       else if ClassVar.is_text var then
         if is_dataclass value
         then raise (SerializerError "Text nodes can't be dataclasses!")
         else set_text p value
       else set_children rn p value var
     else if ClassVar.is_text var then set_nil_attribute var p else ret tt)).
  destruct (is_not_None value).
  - apply avoids_bind.
    { destruct (negb _); [apply avoids_on_namespaces|apply avoids_ret]. }
    intros _.
    destruct (ClassVar.is_attribute var); [apply avoids_mutate|].
    destruct (ClassVar.is_any_attribute var); [by apply avoids_set_attributes|].
    destruct (ClassVar.is_any_element var); [by apply Hsac|].
    destruct (ClassVar.is_text var).
    + destruct (is_dataclass value); [by apply avoids_raise|apply avoids_mutate].
    + by apply (avoids_recursion_set_children rn p value var n).
  - destruct (ClassVar.is_text var);
      [apply avoids_set_nil_attribute|apply avoids_ret].
Qed.

(** With more fuel than the value is deep, the builder does not run out
    of it. *)
Lemma avoids_recursion_render_node fuel :
  ∀ obj p, depth obj < fuel → avoids RecursionError (render_node fuel obj p).
Proof.
  induction fuel as [|fuel IH]; intros obj p Hdepth; [lia|]. simpl.
  assert (avoids RecursionError
    (mutate p (Element.with_text (Some (to_xml obj))) ;; ret p)) as Hleaf.
  { apply avoids_bind; [apply avoids_mutate|]. intros _. apply avoids_ret. }
  destruct (record_view obj) as [[cls fields]|] eqn:Hview; [|exact Hleaf].
  apply avoids_bind; [apply avoids_deref|]. intros e.
  apply avoids_bind; [|intros _; apply avoids_ret].
  apply avoids_for_each. intros var _.
  apply (avoids_recursion_render_var _ _ _ _ _ fuel).
  - intros v q Hv. by apply IH.
  - intros q v Hv. apply avoids_set_any_children. by right.
  - intros name v Hget. apply (record_view_fits obj cls fields name); [done..|lia].
Qed.

(** A text field that holds a record instance raises, whatever the
    recursive calls are. *)
Lemma render_var_text_record rn sac fields parent var value st :
  PyDict.get (ClassVar.name var) fields = Some value →
  ClassVar.tag var = CText →
  is_dataclass value = true →
  render_var rn sac fields parent var st = Raise text_error.
Proof.
  intros Hget Htag Hdc. unfold render_var, getattr, bind. rewrite Hget. simpl.
  destruct value; try discriminate; simpl;
    unfold ClassVar.is_any_element, ClassVar.is_attribute,
      ClassVar.is_any_attribute, ClassVar.is_text; rewrite Htag; reflexivity.
Qed.

(** A [SerializerError] out of one field is raised by that field, a text
    field holding a dataclass instance, or comes out of the rendering
    of an item of an element field, the items before it done. *)
Lemma render_var_error_origin fuel fields parent var st msg :
  render_var (render_node fuel) (set_any_children fuel) fields parent var st
    = Raise (SerializerError msg) →
  ∃ value, PyDict.get (ClassVar.name var) fields = Some value ∧
    ((ClassVar.tag var = CText ∧ is_dataclass value = true ∧
      SerializerError msg = text_error) ∨
     (ClassVar.tag var = CElement ∧ is_not_None value = true ∧
      ∃ items1 val items2 st2 sub st3,
        as_list value = items1 ++ val :: items2 ∧
        set_children (render_node fuel) parent (VList items1) var
          {| heap := heap st;
             namespaces :=
               Namespaces.add (ClassVar.namespace var) None (namespaces st) |}
          = Ok tt st2 ∧
        SubElement parent (ClassVar.qname var) st2 = Ok sub st3 ∧
        render_node fuel val sub st3 = Raise (SerializerError msg))).
Proof.
  unfold render_var, getattr. intros Hrun.
  destruct (PyDict.get (ClassVar.name var) fields) as [value|] eqn:Hget.
  2: { unfold bind, raise in Hrun. discriminate. }
  exists value. split; [done|].
  unfold bind at 1 in Hrun. simpl in Hrun.
  destruct (is_not_None value) eqn:Hpresent.
  2: { destruct (ClassVar.is_text var);
         [by apply avoids_set_nil_attribute in Hrun|discriminate]. }
  apply bind_Raise_inv in Hrun as [Hrun|([] & st1 & Hns & Hrun)].
  { destruct (negb _); discriminate. }
  unfold ClassVar.is_any_element, ClassVar.is_attribute,
    ClassVar.is_any_attribute, ClassVar.is_text in Hrun, Hns.
  destruct (ClassVar.tag var) eqn:Htag; simpl in Hrun, Hns.
  - right. split; [done|]. split; [done|]. injection Hns as <-.
    unfold set_children in Hrun.
    apply for_each_Raise_split in Hrun
      as (items1 & val & items2 & st2 & Hitems & Hpre & Hrun).
    apply bind_Raise_inv in Hrun as [Hrun|(sub & st3 & Hsub & Hrun)];
      [discriminate|].
    apply bind_Raise_inv in Hrun as [Hrun|(r & st4 & _ & Hrun)].
    + by exists items1, val, items2, st2, sub, st3.
    + by apply avoids_set_nil_attribute in Hrun.
  - discriminate.
  - left. destruct (is_dataclass value); [|discriminate].
    injection Hrun as <-. done.
  - apply avoids_set_any_children in Hrun; [done|by left].
  - by apply avoids_set_attributes in Hrun.
Qed.

(** Coming to a text field that holds a dataclass instance makes
    [render_node] raise, from whatever depth. *)
Lemma reaches_raises fuel obj parent st :
  reaches_text_record fuel obj parent st →
  render_node fuel obj parent st = Raise text_error.
Proof.
  induction 1 as
    [fuel obj parent st cls fields vars1 var vars2 st1 value
       Hview Hvars Hbefore Hget Htag Hdc
    |fuel obj parent st cls fields vars1 var vars2 st1 value
       items1 val items2 st2 sub st3
       Hview Hvars Hbefore Hget Hpresent Htag Hitems Hpre Hsub Hreach IH].
  - rewrite (render_node_view _ _ _ _ _ _ Hview), Hvars.
    by rewrite (for_each_Raise_at _ _ _ _ _ _ _ Hbefore
                  (render_var_text_record _ _ _ _ _ _ _ Hget Htag Hdc)).
  - rewrite (render_node_view _ _ _ _ _ _ Hview), Hvars.
    rewrite (for_each_Raise_at vars1 vars2 var _ st st1 text_error Hbefore);
      [done|].
    unfold render_var, getattr. rewrite Hget, bind_ret_eq. cbv beta.
    rewrite Hpresent.
    unfold ClassVar.is_any_element, ClassVar.is_attribute,
      ClassVar.is_any_attribute, ClassVar.is_text. rewrite Htag.
    rewrite !bool_decide_eq_false_2 by done. cbn [negb].
    rewrite bind_on_namespaces_eq. unfold set_children. rewrite Hitems.
    apply (for_each_Raise_at items1 items2 val _ _ st2 _ Hpre).
    unfold bind. rewrite Hsub. simpl. by rewrite IH.
Qed.

(** A [SerializerError] out of [render_node] is the error of a text
    field holding a dataclass instance that [render_node] came to. *)
Lemma raises_reaches fuel :
  ∀ obj parent st msg,
    render_node fuel obj parent st = Raise (SerializerError msg) →
    SerializerError msg = text_error ∧ reaches_text_record fuel obj parent st.
Proof.
  induction fuel as [|fuel IH]; intros obj parent st msg Hrun; [discriminate|].
  destruct (record_view obj) as [[cls fields]|] eqn:Hview.
  2: { by rewrite render_node_plain in Hrun. }
  rewrite (render_node_view _ _ _ _ _ _ Hview) in Hrun.
  destruct (for_each _ _ st) as [[] st'|e] eqn:Hloop; [discriminate|].
  injection Hrun as ->.
  apply for_each_Raise_split in Hloop
    as (vars1 & var & vars2 & st1 & Hvars & Hbefore & Hvar).
  apply render_var_error_origin in Hvar
    as (value & Hget & [(Htag & Hdc & Hmsg)
                       |(Htag & Hpresent & items1 & val & items2 & st2 & sub
                         & st3 & Hitems & Hpre & Hsub & Hnested)]).
  - split; [done|]. by eapply reaches_text_field.
  - apply IH in Hnested as [Hmsg Hreach]. split; [done|].
    by eapply reaches_through_item.
Qed.

End errors.

(** ** The top-level entry points *)

Section render_tree_facts.
Context `{!Collaborators}.
Import XmlSerializer.

Lemma render_tree_view fuel obj cls fields namespace store :
  record_view obj = Some (cls, fields) →
  render_tree fuel obj namespace store =
    match render_node fuel obj (length store)
            (initial_state cls namespace store) with
    | Ok root st =>
        inr ({| root := root;
                top_nsmap := Namespaces.ns_map (namespaces st);
                keep_ns_prefixes := Namespaces.prefixes (namespaces st) |},
             heap st)
    | Raise e => inl e
    end.
Proof. intros Hview. unfold render_tree. rewrite Hview. reflexivity. Qed.

Lemma render_tree_plain fuel obj namespace store :
  record_view obj = None → render_tree fuel obj namespace store = inl TypeError.
Proof. intros Hview. unfold render_tree. by rewrite Hview. Qed.

Lemma render_tree_eq fuel cls fields namespace store :
  render_tree fuel (VData cls fields) namespace store =
    match render_node fuel (VData cls fields) (length store)
            (initial_state cls namespace store) with
    | Ok root st =>
        inr ({| root := root;
                top_nsmap := Namespaces.ns_map (namespaces st);
                keep_ns_prefixes := Namespaces.prefixes (namespaces st) |},
             heap st)
    | Raise e => inl e
    end.
Proof. reflexivity. Qed.

Lemma render_eq self fuel obj store :
  render self fuel obj store =
    match render_tree fuel obj None store with
    | inr (tree, store') =>
        inr (tostring store' (root tree) (xml_declaration self)
                      (encoding self) (pretty_print self))
    | inl e => inl e
    end.
Proof. reflexivity. Qed.

Lemma initial_state_root cls namespace store :
  heap (initial_state cls namespace store) !!! length store
    = Element.new (ClassMeta.qname (class_meta cls namespace)).
Proof. simpl. by rewrite list_lookup_total_middle. Qed.

Lemma render_tree_root_view fuel obj cls fields namespace store t store' :
  record_view obj = Some (cls, fields) →
  render_tree fuel obj namespace store = inr (t, store') →
  root t = length store ∧ root t < length store' ∧
  Element.tag (store' !!! root t) = ClassMeta.qname (class_meta cls namespace) ∧
  (∀ i, i < length store → store' !! i = store !! i) ∧
  (∀ i c, c ∈ Element.children (store' !!! i) →
          c ∈ Element.children (store !!! i) ∨ (root t < c ∧ c < length store')).
Proof.
  intros Hview. rewrite (render_tree_view _ _ _ _ _ _ Hview).
  destruct (render_node _ _ _ _) as [r st|e] eqn:Hrun; [|discriminate].
  intros [= <- <-]. simpl.
  pose proof (render_node_result _ _ _ _ _ _ Hrun) as ->.
  apply touches_render_node in Hrun as (Hlen & Hsame & Htag & Hch).
  simpl in *. rewrite length_app in *. simpl in *.
  split; [done|]. split; [lia|]. split; [|split].
  - rewrite Htag by lia. by rewrite list_lookup_total_middle.
  - intros i Hi. rewrite Hsame by lia. by rewrite lookup_app_l.
  - intros i c Hc. apply Hch in Hc as [Hc|Hc]; [|right; lia]. left.
    destruct (decide (i < length store)) as [Hi|Hi].
    + by rewrite lookup_total_app_l in Hc.
    + destruct (decide (i = length store)) as [->|Hne].
      * rewrite list_lookup_total_middle in Hc by done. inversion Hc.
      * rewrite lookup_total_ge in Hc by (rewrite length_app; simpl; lia).
        inversion Hc.
Qed.

Lemma render_tree_root fuel cls fields namespace store t store' :
  render_tree fuel (VData cls fields) namespace store = inr (t, store') →
  root t = length store ∧ root t < length store' ∧
  Element.tag (store' !!! root t) = ClassMeta.qname (class_meta cls namespace) ∧
  (∀ i, i < length store → store' !! i = store !! i) ∧
  (∀ i c, c ∈ Element.children (store' !!! i) →
          c ∈ Element.children (store !!! i) ∨ (root t < c ∧ c < length store')).
Proof. by apply (render_tree_root_view _ _ cls fields). Qed.

End render_tree_facts.

(** ** The builder does not depend on what the store already holds

    Running the builder on an element of a store that already holds [b]
    objects is the same as running it on the store cut at [b], where
    references are counted from [b]. *)

Section rebase_facts.

Lemma commutes_ret {A} `{!Rebase A} b (a a' : A) :
  rebase_val b a = a' → commutes b (ret a) (ret a').
Proof. intros <- st Hb. simpl. done. Qed.

Lemma commutes_raise {A} `{!Rebase A} b e : commutes b (@raise A e) (raise e).
Proof. intros st Hb. reflexivity. Qed.

Lemma commutes_bind {A B} `{!Rebase A, !Rebase B} b
    (m m' : M A) (k k' : A → M B) :
  commutes b m m' →
  (∀ a, commutes b (k a) (k' (rebase_val b a))) →
  commutes b (bind m k) (bind m' k').
Proof.
  intros Hm Hk st Hb. specialize (Hm st Hb). unfold bind.
  destruct (m st) as [a st1|e].
  - destruct Hm as [Hlen ->]. specialize (Hk a st1 ltac:(lia)).
    destruct (k a st1) as [c st2|e]; [|done].
    destruct Hk as [Hlen2 ->]. split; [lia|done].
  - by rewrite Hm.
Qed.

Lemma commutes_for_each {A} b (l : list A) (body body' : A → M unit) :
  (∀ x, commutes b (body x) (body' x)) →
  commutes b (for_each l body) (for_each l body').
Proof.
  intros Hbody. induction l as [|x l IH]; simpl.
  - by apply commutes_ret.
  - apply commutes_bind; [apply Hbody|]. intros _. apply IH.
Qed.

Lemma lookup_total_rebase b k (h : list Element.node) :
  (unshift b <$> drop b h) !!! k = unshift b (h !!! (b + k)).
Proof.
  rewrite !list_lookup_total_alt, list_lookup_fmap, lookup_drop.
  by destruct (h !! (b + k)).
Qed.

Lemma commutes_deref b k : commutes b (deref (b + k)) (deref k).
Proof.
  intros st Hb. unfold deref. simpl. split; [done|].
  by rewrite lookup_total_rebase.
Qed.

Lemma commutes_mutate b k (f f' : Element.node → Element.node) :
  (∀ n, unshift b (f n) = f' (unshift b n)) →
  commutes b (mutate (b + k) f) (mutate k f').
Proof.
  intros Hf st Hb. unfold mutate, rebase. simpl.
  split; [by rewrite length_alter|]. do 2 f_equal.
  rewrite drop_alter_ge by lia. replace (b + k - b) with k by lia.
  symmetry. apply list_fmap_alter. apply Forall_forall. intros n _. apply Hf.
Qed.

Lemma commutes_on_namespaces b f :
  commutes b (on_namespaces f) (on_namespaces f).
Proof. intros st Hb. simpl. done. Qed.

Lemma commutes_getattr b fields name :
  commutes b (getattr fields name) (getattr fields name).
Proof.
  unfold getattr. destruct (PyDict.get name fields);
    [by apply commutes_ret|apply commutes_raise].
Qed.

Lemma commutes_SubElement {A} `{!Rebase A} b k qname (body body' : nat → M A) :
  (∀ j, commutes b (body (b + j)) (body' j)) →
  commutes b (bind (SubElement (b + k) qname) body)
             (bind (SubElement k qname) body').
Proof.
  intros Hbody st Hb.
  unfold SubElement, bind, Element, mutate, ret. simpl.
  rewrite length_fmap, length_drop.
  set (st1 := {| heap := alter (Element.with_child (length (heap st))) (b + k)
                           (heap st ++ [Element.new qname]);
                 namespaces := namespaces st |}).
  assert (b ≤ length (heap st1)) as Hb1.
  { simpl. rewrite length_alter, length_app. lia. }
  assert (rebase b st1 =
          {| heap := alter (Element.with_child (length (heap st) - b)) k
                       ((unshift b <$> drop b (heap st)) ++ [Element.new qname]);
             namespaces := namespaces st |}) as Hst1.
  { unfold rebase, st1. simpl. f_equal.
    rewrite drop_alter_ge by lia. replace (b + k - b) with k by lia.
    rewrite drop_app_le by done.
    rewrite (list_fmap_alter (unshift b) _
               (Element.with_child (length (heap st) - b))).
    - by rewrite fmap_app.
    - apply Forall_forall. intros n _. unfold unshift, Element.with_child. simpl.
      by rewrite fmap_app. }
  rewrite <- Hst1.
  specialize (Hbody (length (heap st) - b) st1 Hb1).
  replace (b + (length (heap st) - b)) with (length (heap st)) in Hbody by lia.
  destruct (body (length (heap st)) st1) as [a st2|e]; [|done].
  destruct Hbody as [Hlen Hrun]. split; [|done].
  simpl in Hlen. rewrite length_alter, length_app in Hlen. lia.
Qed.

End rebase_facts.

Section builder_rebase.
Context `{!Collaborators}.
Import XmlSerializer.

Ltac commutes_field :=
  apply commutes_mutate; intros n; reflexivity.

Lemma commutes_set_attribute b k value var :
  commutes b (set_attribute (b + k) value var) (set_attribute k value var).
Proof. unfold set_attribute. commutes_field. Qed.

Lemma commutes_set_attributes b k values :
  commutes b (set_attributes (b + k) values) (set_attributes k values).
Proof.
  unfold set_attributes. destruct values; try apply commutes_raise.
  apply commutes_for_each. intros x. commutes_field.
Qed.

Lemma commutes_set_text b k value :
  commutes b (set_text (b + k) value) (set_text k value).
Proof. unfold set_text. commutes_field. Qed.

Lemma commutes_set_nil_attribute b k var :
  commutes b (set_nil_attribute var (b + k)) (set_nil_attribute var k).
Proof.
  unfold set_nil_attribute. apply commutes_bind; [apply commutes_deref|].
  intros e. unfold rebase_val, rebase_node. simpl. rewrite length_fmap.
  destruct (_ && _); [|by apply commutes_ret].
  apply commutes_bind; [apply commutes_on_namespaces|]. intros _. commutes_field.
Qed.

Lemma commutes_set_any_child b k self val :
  (∀ j v, commutes b (self (b + j) v) (self j v)) →
  commutes b (set_any_child self (b + k) val) (set_any_child self k val).
Proof.
  intros Hself. destruct val; simpl; try by apply commutes_ret.
  - apply commutes_bind; [apply commutes_deref|]. intros e.
    unfold rebase_val, rebase_node. simpl.
    destruct (Py.truthy _); commutes_field.
  - apply commutes_bind; [commutes_field|]. intros _.
    apply commutes_bind; [apply commutes_on_namespaces|]. intros _.
    apply (commutes_set_attributes b k (VDict _)).
  - apply commutes_bind; [apply commutes_on_namespaces|]. intros _.
    apply commutes_SubElement. intros j.
    apply commutes_bind; [commutes_field|]. intros _.
    apply commutes_bind; [commutes_field|]. intros _.
    apply commutes_for_each. intros child. apply Hself.
Qed.

Lemma commutes_set_any_children fuel :
  ∀ b k value,
    commutes b (set_any_children fuel (b + k) value) (set_any_children fuel k value).
Proof.
  induction fuel as [|fuel IH]; intros b k value; simpl.
  - apply commutes_raise.
  - apply commutes_for_each. intros val. apply commutes_set_any_child.
    intros j v. apply IH.
Qed.

Lemma commutes_set_children b k rn value var :
  (∀ v j, commutes b (rn v (b + j)) (rn v j)) →
  commutes b (set_children rn (b + k) value var) (set_children rn k value var).
Proof.
  intros Hrn. unfold set_children. apply commutes_for_each. intros val.
  apply commutes_SubElement. intros j.
  apply commutes_bind; [apply Hrn|]. intros _. apply commutes_set_nil_attribute.
Qed.

Lemma commutes_render_var b k rn sac fields var :
  (∀ v j, commutes b (rn v (b + j)) (rn v j)) →
  (∀ j v, commutes b (sac (b + j) v) (sac j v)) →
  commutes b (render_var rn sac fields (b + k) var) (render_var rn sac fields k var).
Proof.
  intros Hrn Hsac. unfold render_var.
  apply commutes_bind; [apply commutes_getattr|]. intros value.
  unfold rebase_val at 1 2 3 4 5 6 7, rebase_value.
  destruct (is_not_None value).
  - apply commutes_bind.
    { destruct (negb _); [apply commutes_on_namespaces|by apply commutes_ret]. }
    intros _.
    destruct (ClassVar.is_attribute var); [apply commutes_set_attribute|].
    destruct (ClassVar.is_any_attribute var); [apply commutes_set_attributes|].
    destruct (ClassVar.is_any_element var); [apply Hsac|].
    destruct (ClassVar.is_text var).
    + destruct (is_dataclass value); [apply commutes_raise|apply commutes_set_text].
    + by apply commutes_set_children.
  - destruct (ClassVar.is_text var);
      [apply commutes_set_nil_attribute|by apply commutes_ret].
Qed.

Lemma commutes_render_node fuel :
  ∀ b k obj, commutes b (render_node fuel obj (b + k)) (render_node fuel obj k).
Proof.
  induction fuel as [|fuel IH]; intros b k obj; simpl.
  - apply commutes_raise.
  - assert (commutes b
      (mutate (b + k) (Element.with_text (Some (to_xml obj))) ;; ret (b + k))
      (mutate k (Element.with_text (Some (to_xml obj))) ;; ret k)) as Hleaf.
    { apply commutes_bind; [commutes_field|]. intros _. apply commutes_ret.
      unfold rebase_val, rebase_ref. lia. }
    destruct (record_view obj) as [[cls fields]|]; [|exact Hleaf].
    apply commutes_bind; [apply commutes_deref|]. intros e.
    unfold rebase_val at 1, rebase_node. simpl.
    apply commutes_bind.
    + apply commutes_for_each. intros var.
      apply commutes_render_var; [intros v j; apply IH|].
      intros j v. apply commutes_set_any_children.
    + intros _. apply commutes_ret. unfold rebase_val, rebase_ref. lia.
Qed.

End builder_rebase.

Section independence.
Context `{!Collaborators}.
Import XmlSerializer.

Lemma to_tree_rebase b (h : list Element.node) :
  (∀ i c, b ≤ i → c ∈ Element.children (h !!! i) → b ≤ c) →
  ∀ d k, to_tree d h (b + k) = to_tree d (unshift b <$> drop b h) k.
Proof.
  intros Hclosed. induction d as [|d IH]; intros k; simpl; [done|].
  rewrite lookup_total_rebase. simpl. f_equal.
  assert (∀ l : list nat, (∀ c, c ∈ l → b ≤ c) →
            map (to_tree d h) l
            = map (to_tree d (unshift b <$> drop b h)) ((λ c, c - b) <$> l)) as Hmap.
  { induction l as [|c l IHl]; intros Hl; simpl; [done|]. f_equal.
    - rewrite <- IH. f_equal. specialize (Hl c (list_elem_of_here _ _)). lia.
    - apply IHl. intros c' Hc'. apply Hl. by apply list_elem_of_further. }
  apply Hmap. intros c Hc. apply (Hclosed (b + k)); [lia|done].
Qed.

Lemma to_tree_agree b (s s' : list Element.node) :
  (∀ i, i < length s → s' !! i = s !! i) →
  (∀ i c, b ≤ i → c ∈ Element.children (s !!! i) → b ≤ c ∧ c < length s) →
  ∀ d r, b ≤ r → r < length s → to_tree d s' r = to_tree d s r.
Proof.
  intros Hsame Hclosed. induction d as [|d IH]; intros r Hb Hr; simpl; [done|].
  assert (s' !!! r = s !!! r) as ->.
  { rewrite !list_lookup_total_alt. by rewrite Hsame. }
  f_equal. apply map_ext_in. intros c Hc.
  apply list_elem_of_In in Hc. apply (Hclosed r) in Hc as [? ?]; [|done].
  by apply IH.
Qed.

(** Rendering in any store is rendering in the empty store, seen from
    the first new object. *)
Lemma render_tree_rebase fuel obj namespace store :
  match render_tree fuel obj namespace store with
  | inr (t, store') =>
      render_tree fuel obj namespace [] =
        inr (mkTree 0 (top_nsmap t) (keep_ns_prefixes t),
             unshift (length store) <$> drop (length store) store')
  | inl e => render_tree fuel obj namespace [] = inl e
  end.
Proof.
  destruct (record_view obj) as [[cls fields]|] eqn:Hview.
  2: { by rewrite !render_tree_plain. }
  rewrite !(render_tree_view _ _ _ _ _ _ Hview).
  pose proof (commutes_render_node fuel (length store) 0 obj
                (initial_state cls namespace store)) as Hc.
  rewrite Nat.add_0_r in Hc.
  assert (rebase (length store) (initial_state cls namespace store)
          = initial_state cls namespace []) as Hinit.
  { unfold rebase, initial_state. simpl. by rewrite drop_app_length. }
  rewrite Hinit in Hc. change (length (@nil Element.node)) with 0.
  specialize (Hc ltac:(simpl; rewrite length_app; lia)).
  destruct (render_node fuel obj (length store) _) as [r st|e] eqn:Hrun.
  - destruct Hc as [_ ->].
    apply render_node_result in Hrun as ->.
    unfold rebase_val, rebase_ref. rewrite Nat.sub_diag. reflexivity.
  - by rewrite Hc.
Qed.

Lemma render_tree_closed fuel obj namespace store t store' :
  render_tree fuel obj namespace store = inr (t, store') →
  root t = length store ∧ root t < length store' ∧
  (∀ i, i < length store → store' !! i = store !! i) ∧
  (∀ i c, length store ≤ i → c ∈ Element.children (store' !!! i) →
          length store ≤ c ∧ c < length store').
Proof.
  destruct (record_view obj) as [[cls fields]|] eqn:Hview.
  2: { by rewrite render_tree_plain. }
  intros Hrun.
  apply (render_tree_root_view _ _ _ _ _ _ _ _ Hview) in Hrun
    as (Hroot & Hlt & _ & Hsame & Hch).
  split; [done|]. split; [done|]. split; [done|].
  intros i c Hi Hc. apply Hch in Hc as [Hc|Hc]; [|lia].
  rewrite lookup_total_ge in Hc by done. inversion Hc.
Qed.

End independence.

(** * The claims *)

(** C1, as the code has it. When [set_any_children] meets a plain-text
    item while the parent already has a non-empty text, the text becomes
    the tail of the parent element itself: the parent keeps its text and
    its children, and no other object, the children included, is
    touched. So for a sequence that ends in a plain-text item, processed
    up to that item with the parent's text set, the result is the state
    reached before the item with the tail of the parent replaced. *)
Theorem plain_text_after_text_sets_parent_tail `{!Collaborators} :
  (∀ (self : nat → Value → M unit) (parent : nat) (s : string) (st : State),
     Py.truthy (Element.text (heap st !!! parent)) = true →
     ∃ st', XmlSerializer.set_any_child self parent (VStr s) st = Ok tt st' ∧
       Element.tail (heap st' !!! parent) = Some s ∧
       Element.text (heap st' !!! parent) = Element.text (heap st !!! parent) ∧
       Element.children (heap st' !!! parent)
         = Element.children (heap st !!! parent) ∧
       (∀ i, i ≠ parent → heap st' !! i = heap st !! i) ∧
       length (heap st') = length (heap st) ∧
       namespaces st' = namespaces st) ∧
  (∀ (fuel parent : nat) (before : list Value) (s : string) (st st1 : State),
     XmlSerializer.set_any_children (S fuel) parent (VList before) st
       = Ok tt st1 →
     Py.truthy (Element.text (heap st1 !!! parent)) = true →
     XmlSerializer.set_any_children (S fuel) parent
       (VList (before ++ [VStr s])) st
     = Ok tt {| heap := alter (Element.with_tail (Some s)) parent (heap st1);
                namespaces := namespaces st1 |}).
Proof.
  split.
  - intros self parent s st Htext.
    assert (parent < length (heap st)) as Hvalid.
    { destruct (decide (parent < length (heap st))); [done|].
      rewrite lookup_total_ge in Htext by lia. discriminate. }
    eexists. split.
    { unfold XmlSerializer.set_any_child, bind, deref. rewrite Htext.
      reflexivity. }
    simpl. rewrite list_lookup_total_alter_eq by done. simpl.
    repeat split; try done.
    + intros i Hne. by apply list_lookup_alter_ne.
    + apply length_alter.
  - intros fuel parent before s st st1 Hbefore Htext. simpl in *.
    rewrite for_each_app. unfold bind at 1. rewrite Hbefore. simpl.
    unfold bind, deref. by rewrite Htext.
Qed.

(** C2, as the code has it. An element field whose value is absent is
    skipped, nillable or not: the parent, the store and the registry stay
    as they are. The child that carries only the nil attribute is what a
    nillable element field gets for a value that is present and builds
    an empty element, such as a record instance without fields. *)
Theorem absent_element_field_is_skipped `{!Collaborators} :
  (∀ rn sac fields parent var st,
     PyDict.get (ClassVar.name var) fields = Some VNone →
     ClassVar.tag var = CElement →
     XmlSerializer.render_var rn sac fields parent var st = Ok tt st) ∧
  (∀ fuel cls fields parent var st,
     parent < length (heap st) →
     ClassVar.is_nillable var = true →
     ClassMeta.vars (class_meta cls (qn_namespace (ClassVar.qname var))) = [] →
     XmlSerializer.set_children (XmlSerializer.render_node (S fuel)) parent
       (VData cls fields) var st
     = Ok tt
         {| heap :=
              alter (Element.with_child (length (heap st))) parent (heap st)
              ++ [Element.mk (ClassVar.qname var) [(nil_qname, "true")]
                             None None []];
            namespaces :=
              Namespaces.add (Some XSI_uri) (Some XSI_prefix) (namespaces st) |}).
Proof.
  split.
  - intros rn sac fields parent var st Hget Htag.
    unfold XmlSerializer.render_var, getattr, bind. rewrite Hget. simpl.
    unfold ClassVar.is_text. rewrite Htag. reflexivity.
  - intros fuel cls fields parent var st Hparent Hnil Hvars.
    set (sub := length (heap st)).
    set (st1 := {| heap := alter (Element.with_child sub) parent (heap st)
                           ++ [Element.new (ClassVar.qname var)];
                   namespaces := namespaces st |}).
    assert (heap st1 !!! sub = Element.new (ClassVar.qname var)) as Hsub.
    { simpl. apply list_lookup_total_middle. by rewrite length_alter. }
    assert (SubElement parent (ClassVar.qname var) st = Ok sub st1) as H1.
    { unfold SubElement, Element, bind, mutate, ret, st1. simpl.
      by rewrite alter_app_l. }
    assert (XmlSerializer.render_node (S fuel) (VData cls fields) sub st1
            = Ok sub st1) as H2.
    { simpl. unfold bind, deref. rewrite Hsub. simpl. by rewrite Hvars. }
    unfold XmlSerializer.set_children, as_list, for_each, bind.
    rewrite H1, H2, set_nil_attribute_eq, Hsub.
    rewrite decide_True by done. simpl. do 2 f_equal.
    rewrite alter_app_r_alt by (rewrite length_alter; lia).
    unfold sub. rewrite length_alter, Nat.sub_diag. reflexivity.
Qed.

(** C9. With an empty string as text and no children, the element of a
    nillable field gets no nil attribute: [set_nil_attribute] leaves the
    state as it is. Only a text that is [None] counts as no text: with
    the text unset, the same element gets the attribute. *)
Theorem empty_string_text_suppresses_nil `{!Collaborators}
    (var : ClassVar.t) (element : nat) (st : State) :
  ClassVar.is_nillable var = true →
  element < length (heap st) →
  Element.children (heap st !!! element) = [] →
  (Element.text (heap st !!! element) = Some "" →
   XmlSerializer.set_nil_attribute var element st = Ok tt st) ∧
  (Element.text (heap st !!! element) = None →
   ∃ st', XmlSerializer.set_nil_attribute var element st = Ok tt st' ∧
     PyDict.get nil_qname (Element.attrib (heap st' !!! element)) = Some "true").
Proof.
  intros Hn Hvalid Hc. rewrite set_nil_attribute_eq. split; intros Ht.
  - rewrite decide_False; [done|]. intros (_ & Ht' & _). congruence.
  - rewrite decide_True by done. eexists. split; [reflexivity|]. simpl.
    rewrite list_lookup_total_alter_eq by done. simpl. apply get_set_eq.
Qed.

(** C5. For a field processed by [render_node], a text field whose value
    is a dataclass instance raises the serializer error, whatever comes
    before or after; a serializer error out of a field is that error of
    that field, or comes out of the rendering of an item of an element
    field. So [render_node] raises a serializer error exactly when it
    comes to a text field holding a dataclass instance, in the instance
    it was given or in an instance nested in its element fields, at any
    depth; [render_tree] then returns that error and no tree, and it
    returns a serializer error in no other case; [render] returns the
    error of [render_tree] and no text. *)
Theorem serializer_error_iff_text_record `{!Collaborators} :
  (∀ rn sac fields parent var value st,
     PyDict.get (ClassVar.name var) fields = Some value →
     ClassVar.tag var = CText →
     is_dataclass value = true →
     XmlSerializer.render_var rn sac fields parent var st = Raise text_error) ∧
  (∀ fuel fields parent var st msg,
     XmlSerializer.render_var (XmlSerializer.render_node fuel)
       (XmlSerializer.set_any_children fuel) fields parent var st
       = Raise (SerializerError msg) →
     ∃ value, PyDict.get (ClassVar.name var) fields = Some value ∧
       ((ClassVar.tag var = CText ∧ is_dataclass value = true ∧
         SerializerError msg = text_error) ∨
        (ClassVar.tag var = CElement ∧ is_not_None value = true ∧
         ∃ items1 val items2 st2 sub st3,
           as_list value = items1 ++ val :: items2 ∧
           XmlSerializer.set_children (XmlSerializer.render_node fuel) parent
             (VList items1) var
             {| heap := heap st;
                namespaces :=
                  Namespaces.add (ClassVar.namespace var) None (namespaces st) |}
             = Ok tt st2 ∧
           SubElement parent (ClassVar.qname var) st2 = Ok sub st3 ∧
           XmlSerializer.render_node fuel val sub st3
             = Raise (SerializerError msg)))) ∧
  (∀ fuel obj parent st msg,
     XmlSerializer.render_node fuel obj parent st = Raise (SerializerError msg) ↔
     SerializerError msg = text_error ∧
     reaches_text_record fuel obj parent st) ∧
  (∀ fuel obj namespace store msg,
     XmlSerializer.render_tree fuel obj namespace store
       = inl (SerializerError msg) ↔
     SerializerError msg = text_error ∧
     ∃ cls fields,
       record_view obj = Some (cls, fields) ∧
       reaches_text_record fuel obj (length store)
         (initial_state cls namespace store)) ∧
  (∀ self fuel obj store e,
     XmlSerializer.render_tree fuel obj None store = inl e →
     XmlSerializer.render self fuel obj store = inl e).
Proof.
  assert (∀ fuel obj parent st msg,
     XmlSerializer.render_node fuel obj parent st = Raise (SerializerError msg) ↔
     SerializerError msg = text_error ∧
     reaches_text_record fuel obj parent st) as Hnode.
  { intros fuel obj parent st msg. split.
    - apply raises_reaches.
    - intros [-> Hreach]. by apply reaches_raises. }
  split; [|split; [|split; [exact Hnode|split]]].
  - intros. by apply render_var_text_record with value.
  - intros fuel fields parent var st msg Hrun.
    by apply (render_var_error_origin fuel fields parent var st msg).
  - intros fuel obj namespace store msg. split.
    + intros Hrun. destruct (record_view obj) as [[cls fields]|] eqn:Hview.
      2: { by rewrite render_tree_plain in Hrun. }
      rewrite (render_tree_view _ _ _ _ _ _ Hview) in Hrun.
      destruct (XmlSerializer.render_node _ _ _ _) as [r st|e] eqn:Hbuild;
        [discriminate|].
      injection Hrun as ->. apply Hnode in Hbuild as [Hmsg Hreach].
      split; [done|]. by exists cls, fields.
    + intros (Hmsg & cls & fields & Hview & Hreach).
      rewrite (render_tree_view _ _ _ _ _ _ Hview).
      assert (XmlSerializer.render_node fuel obj (length store)
                (initial_state cls namespace store)
              = Raise (SerializerError msg)) as -> by (by apply Hnode).
      done.
  - intros self fuel obj store e Htree. rewrite render_eq. by rewrite Htree.
Qed.

(** C10. [render_node] returns the very reference it was given as
    parent; what it did, it did to that object and to objects it created:
    every other object of the store is as before, no object changed its
    tag, and only new objects became children. So the root returned by
    [render_tree] is the element it created with the qualified name of
    the instance's type, it still has that tag, the objects of the
    caller's store are untouched, and the root is nobody's child. With
    more fuel than the value is deep, [render_node] does not stop for
    lack of it. *)
Theorem render_node_returns_its_parent `{!Collaborators} :
  (∀ fuel obj parent st r st',
     XmlSerializer.render_node fuel obj parent st = Ok r st' →
     r = parent ∧ only_touches parent st st') ∧
  (∀ fuel cls fields namespace store t store',
     XmlSerializer.render_tree fuel (VData cls fields) namespace store
       = inr (t, store') →
     XmlSerializer.root t = length store ∧
     XmlSerializer.root t < length store' ∧
     Element.tag (store' !!! XmlSerializer.root t)
       = ClassMeta.qname (class_meta cls namespace) ∧
     (∀ i, i < length store → store' !! i = store !! i) ∧
     (∀ i c, c ∈ Element.children (store' !!! i) →
             c ∈ Element.children (store !!! i) ∨
             (XmlSerializer.root t < c ∧ c < length store'))) ∧
  (∀ fuel obj parent st,
     depth obj < fuel →
     XmlSerializer.render_node fuel obj parent st ≠ Raise RecursionError).
Proof.
  split; [|split].
  - intros fuel obj parent st r st' Hrun. split.
    + by eapply render_node_result.
    + by eapply touches_render_node.
  - intros. by eapply render_tree_root.
  - intros fuel obj parent st Hdepth. by apply avoids_recursion_render_node.
Qed.

(** C8. If a call of [render_tree] returns a tree, a second call on the
    same instance, made on the store the first call left, returns a tree
    too: the two trees are equal to any depth, in tags, attributes, text,
    tails and order of children, the namespace declarations handed to
    lxml are the same, and the first tree is as the first call left it.
    If a call raises an error, a call on any store raises that error.
    Each call starts from a registry of its own. *)
Theorem render_tree_twice `{!Collaborators} :
  (∀ (fuel : nat) (obj : Value) (namespace : option string)
     (store store1 : list Element.node) (t1 : XmlSerializer.tree),
     XmlSerializer.render_tree fuel obj namespace store = inr (t1, store1) →
     ∃ t2 store2,
       XmlSerializer.render_tree fuel obj namespace store1 = inr (t2, store2) ∧
       (∀ d, to_tree d store2 (XmlSerializer.root t2)
             = to_tree d store1 (XmlSerializer.root t1)) ∧
       XmlSerializer.top_nsmap t2 = XmlSerializer.top_nsmap t1 ∧
       XmlSerializer.keep_ns_prefixes t2 = XmlSerializer.keep_ns_prefixes t1 ∧
       (∀ d, to_tree d store2 (XmlSerializer.root t1)
             = to_tree d store1 (XmlSerializer.root t1))) ∧
  (∀ (fuel : nat) (obj : Value) (namespace : option string)
     (store store' : list Element.node) (e : Error),
     XmlSerializer.render_tree fuel obj namespace store = inl e →
     XmlSerializer.render_tree fuel obj namespace store' = inl e).
Proof.
  split.
  - intros fuel obj namespace store store1 t1 Hfirst.
    pose proof (render_tree_rebase fuel obj namespace store) as Hr1.
    pose proof (render_tree_rebase fuel obj namespace store1) as Hr2.
    rewrite Hfirst in Hr1.
    destruct (XmlSerializer.render_tree fuel obj namespace store1)
      as [e|[t2 store2]] eqn:Hsecond; [congruence|].
    rewrite Hr1 in Hr2. injection Hr2 as Hmap Hpre Hview.
    apply render_tree_closed in Hfirst as (Hroot1 & Hlt1 & Hsame1 & Hch1).
    apply render_tree_closed in Hsecond as (Hroot2 & Hlt2 & Hsame2 & Hch2).
    exists t2, store2. split; [done|]. split; [|split; [done|split; [done|]]].
    + intros d. rewrite Hroot1, Hroot2.
      rewrite <- (Nat.add_0_r (length store1)), <- (Nat.add_0_r (length store)).
      rewrite !to_tree_rebase.
      * by rewrite Hview.
      * intros i c Hi Hc. by apply (Hch1 i c Hi) in Hc as [? _].
      * intros i c Hi Hc. by apply (Hch2 i c Hi) in Hc as [? _].
    + intros d. apply (to_tree_agree (length store)); try done. lia.
  - intros fuel obj namespace store store' e Hfirst.
    pose proof (render_tree_rebase fuel obj namespace store) as Hr1.
    pose proof (render_tree_rebase fuel obj namespace store') as Hr2.
    rewrite Hfirst in Hr1.
    destruct (XmlSerializer.render_tree fuel obj namespace store')
      as [e'|[t2 store2]]; congruence.
Qed.

(** * The claims on concrete inputs *)

Module Examples.
Import XmlSerializer Scenario.

(** Scenario C: the text after [<b>] ends up as the tail of the parent;
    the tail of [<b>] stays unset. *)
Lemma scenario_C_tail_on_parent :
  @render_tree C 10 Scenario.mixed None [] = inr (mixed_tree, mixed_store).
Proof. vm_compute. reflexivity. Qed.

Lemma plain_text_after_text_witness :
  Py.truthy (Element.text (heap mixed_before_trail !!! 0)) = true ∧
  ∃ st', @set_any_child C (@set_any_children C 5) 0 (VStr " trail")
           mixed_before_trail = Ok tt st' ∧
         Element.tail (heap st' !!! 0) = Some " trail" ∧
         heap st' !! 1 = heap mixed_before_trail !! 1.
Proof.
  split; [reflexivity|].
  destruct (proj1 (@plain_text_after_text_sets_parent_tail C)
              (@set_any_children C 5) 0 " trail" mixed_before_trail eq_refl)
    as (st' & Hrun & Htail & _ & _ & Hothers & _).
  exists st'. split; [exact Hrun|]. split; [exact Htail|].
  apply Hothers. discriminate.
Defined.

(** Scenario B: with [color] nillable and absent, the tree has the three
    children of scenario A and no [color] element. *)
Lemma scenario_B_no_color_element :
  @render_tree C 10 (Scenario.product "NillableProductType") None [] =
    inr (mkTree 0 [] [],
         [ Element.mk (Scenario.q "NillableProductType") [] None None [1; 2; 3];
           Element.mk (Scenario.q "number") [] (Some "1") None [];
           Element.mk (Scenario.q "name") [] (Some "Shirt") None [];
           Element.mk (Scenario.q "size") [] (Some "10") None [] ]).
Proof. vm_compute. reflexivity. Qed.

Lemma absent_element_field_witness :
  @render_var C (@render_node C 5) (@set_any_children C 5)
    [("color", VNone)] 0 (Sample.element "color" true)
    {| heap := [Element.new (Scenario.q "NillableProductType")];
       namespaces := Namespaces.fresh |}
  = Ok tt {| heap := [Element.new (Scenario.q "NillableProductType")];
             namespaces := Namespaces.fresh |}.
Proof.
  apply (proj1 (@absent_element_field_is_skipped C)); reflexivity.
Defined.

(** C3, against the code. A record with a nillable text field left out,
    followed by an element field: [render_node] runs the nil check when
    it meets the absent text field, while the element is still empty,
    and the element field then gives the element a child. The root ends
    up with a child and carries the nil attribute all the same. *)
Lemma nil_attribute_on_nonempty_element :
  @render_tree C 10 Scenario.note None [] =
    inr (mkTree 0 [("xsi", Sample.xsi)] ["xsi"],
         [ Element.mk (Scenario.q "Note") [(Scenario.xsi_nil, "true")]
                      None None [1];
           Element.mk (Scenario.q "author") [] (Some "me") None [] ]).
Proof. vm_compute. reflexivity. Qed.

(** A nillable element field holding the empty string: the child has the
    empty text and no nil attribute. *)
Lemma empty_string_text_witness :
  @set_nil_attribute C (Sample.element "item" true) 0
    {| heap := [Element.mk (Scenario.q "item") [] (Some "") None []];
       namespaces := Namespaces.fresh |}
  = Ok tt {| heap := [Element.mk (Scenario.q "item") [] (Some "") None []];
             namespaces := Namespaces.fresh |}.
Proof.
  apply (@empty_string_text_suppresses_nil C (Sample.element "item" true) 0);
    [reflexivity | simpl; lia | reflexivity | reflexivity].
Defined.

(** A text field holding a record instance, and one holding an annotated
    text: [render_tree] returns the error. *)
Lemma text_field_holding_record :
  @render_tree C 10 Scenario.holder_of_record None [] = inl text_error ∧
  @render_tree C 10 Scenario.holder_of_text None [] = inl text_error.
Proof. split; vm_compute; reflexivity. Qed.

(** The text field sits in the second item of an element field of the
    root: the first item is built, then the render is given up. *)
Lemma text_record_witness :
  @render_tree C 10 Scenario.wrapper_of_holder None [] = inl text_error.
Proof.
  apply (proj2 (proj1 (proj2 (proj2 (proj2
           (@serializer_error_iff_text_record C))))
           10 Scenario.wrapper_of_holder None []
           "Text nodes can't be dataclasses!")).
  split; [reflexivity|].
  exists "Wrapper", [("item", VList [VStr "ok"; holder_of_text])].
  split; [reflexivity|].
  eapply (@reaches_through_item C 9 Scenario.wrapper_of_holder 0 _
            "Wrapper" _ [] (Sample.element "item" true) [] _
            (VList [VStr "ok"; holder_of_text])
            [VStr "ok"] holder_of_text []);
    [reflexivity..|].
  eapply (@reaches_text_field C 8 holder_of_text 2 _ "Holder" _ []
            (ClassVar.mk "value" (mkQName None "value") None CText false) []);
    reflexivity.
Defined.

(** An annotated element held by an element field is a dataclass
    instance like any other: its attributes are rendered as fields, here
    as the children [qname] and [text] of the [item] element. *)
Lemma element_field_holding_carrier :
  @render_tree C 10 Scenario.wrapper_of_element None [] =
    inr (mkTree 0 [] [],
         [ Element.mk (Scenario.q "Wrapper") [] None None [1];
           Element.mk (Scenario.q "item") [] None None [2; 3];
           Element.mk (Scenario.q "qname") [] (Some "b") None [];
           Element.mk (Scenario.q "text") [] (Some "bold") None [] ]).
Proof. vm_compute. reflexivity. Qed.

Lemma render_node_parent_witness :
  0 = 0 ∧
  only_touches 0
    {| heap := [Element.new (Scenario.q "name")]; namespaces := Namespaces.fresh |}
    {| heap := [Element.mk (Scenario.q "name") [] (Some "Shirt") None []];
       namespaces := Namespaces.fresh |}.
Proof.
  apply (proj1 (@render_node_returns_its_parent C) 1 (VStr "Shirt") 0).
  reflexivity.
Defined.

Lemma render_tree_twice_witness :
  ∃ t2 store2,
    @render_tree C 10 Scenario.mixed None mixed_store = inr (t2, store2) ∧
    (∀ d, to_tree d store2 (root t2) = to_tree d mixed_store (root mixed_tree)) ∧
    top_nsmap t2 = top_nsmap mixed_tree ∧
    keep_ns_prefixes t2 = keep_ns_prefixes mixed_tree ∧
    (∀ d, to_tree d store2 (root mixed_tree)
          = to_tree d mixed_store (root mixed_tree)).
Proof.
  apply (proj1 (@render_tree_twice C) 10 Scenario.mixed None []
           mixed_store mixed_tree).
  vm_compute. reflexivity.
Defined.

End Examples.

Module RegistryExamples.
Import Namespaces Scenario.

Lemma prefix_shared_by_two_uris :
  items (@run C shared_prefix_calls fresh)
    = [("urn:a", "ns0"); ("urn:b", "ns0")] ∧
  ¬ bijection_invariant (@run C shared_prefix_calls fresh).
Proof.
  split; [reflexivity|].
  intros [_ Hinj].
  specialize (Hinj "urn:a" "urn:b" "ns0").
  discriminate Hinj; [discriminate|reflexivity|reflexivity].
Qed.

Lemma first_registration_wins_witness :
  PyDict.get "urn:a" (items (@run C [Add (Some "urn:a") None] fresh))
    = Some "ns0" ∧
  PyDict.get "urn:a"
    (items (@run C [Add (Some "urn:a") (Some "other");
                    AddAll [(Some "p", Some "urn:a"); (Some "q", Some "urn:b")]]
              (@run C [Add (Some "urn:a") None] fresh)))
    = Some "ns0".
Proof.
  split; [reflexivity|].
  apply (proj2 (@registry_first_registration_wins C
                  [Add (Some "urn:a") None]
                  [Add (Some "urn:a") (Some "other");
                   AddAll [(Some "p", Some "urn:a"); (Some "q", Some "urn:b")]]
                  "urn:a" "ns0")).
  reflexivity.
Defined.

Lemma well_known_prefix_witness :
  PyDict.get Sample.xsi (items (@add C (Some Sample.xsi) (Some "custom") fresh))
    = Some "xsi" ∧
  auto_ns (@add C (Some Sample.xsi) (Some "custom") fresh) = auto_ns fresh.
Proof.
  apply (@add_well_known_prefix C Sample.xsi (Some "custom") fresh "xsi");
    [discriminate | reflexivity | reflexivity].
Defined.

Lemma auto_naming_witness :
  @auto_named C [] naming_calls !! 2 = Some "urn:d" ∧
  PyDict.get "urn:d" (items (@run C (adds naming_calls) fresh))
    = Some ("ns" +:+ pretty 2).
Proof.
  split; [reflexivity|].
  apply (@auto_naming_order C naming_calls 2 "urn:d"). reflexivity.
Defined.

End RegistryExamples.

(** * Further properties of the registry *)

Section dict_more.
Context {K V : Type} `{EqDecision K}.
Implicit Types (k : K) (v : V) (d : list (K * V)).

Lemma set_fresh k v d :
  PyDict.get k d = None → PyDict.set k v d = d ++ [(k, v)].
Proof.
  induction d as [|[k' v'] d IH]; simpl; [done|].
  destruct (decide (k = k')); [discriminate|].
  intros Hg. f_equal. by apply IH.
Qed.

Lemma keys_set_present k v v0 d :
  PyDict.get k d = Some v0 → PyDict.keys (PyDict.set k v d) = PyDict.keys d.
Proof.
  induction d as [|[k' v'] d IH]; simpl; [discriminate|].
  destruct (decide (k = k')) as [->|Hne]; [done|].
  intros Hg. simpl. f_equal. by apply IH.
Qed.

Lemma set_NoDup k v d :
  NoDup (PyDict.keys d) → NoDup (PyDict.keys (PyDict.set k v d)).
Proof.
  intros Hnd. destruct (PyDict.get k d) as [v0|] eqn:Hg.
  - by rewrite (keys_set_present k v v0).
  - by apply keys_set_NoDup.
Qed.

Lemma get_app k d1 d2 :
  PyDict.get k (d1 ++ d2) =
    match PyDict.get k d1 with Some v => Some v | None => PyDict.get k d2 end.
Proof.
  induction d1 as [|[k' v'] d1 IH]; simpl; [done|].
  by destruct (decide (k = k')).
Qed.

Lemma get_Some_elem k v d : PyDict.get k d = Some v → (k, v) ∈ d.
Proof.
  induction d as [|[k' v'] d IH]; simpl; [discriminate|].
  destruct (decide (k = k')) as [->|Hne].
  - intros [= ->]. apply list_elem_of_here.
  - intros Hg. apply list_elem_of_further. by apply IH.
Qed.

Lemma elem_get_Some k v d :
  NoDup (PyDict.keys d) → (k, v) ∈ d → PyDict.get k d = Some v.
Proof.
  induction d as [|[k' v'] d IH]; simpl; intros Hnd Hin; [inversion Hin|].
  apply NoDup_cons in Hnd as [Hk' Hnd].
  apply elem_of_cons in Hin as [[= -> ->]|Hin].
  - by rewrite decide_True.
  - destruct (decide (k = k')) as [->|Hne]; [|by apply IH].
    exfalso. apply Hk'. apply list_elem_of_fmap. by exists (k', v).
Qed.

Lemma elem_get_is_Some k v d : (k, v) ∈ d → is_Some (PyDict.get k d).
Proof.
  induction d as [|[k' v'] d IH]; simpl; intros Hin; [inversion Hin|].
  destruct (decide (k = k')); [by eexists|].
  apply elem_of_cons in Hin as [[= ? ?]|Hin]; [congruence|]. by apply IH.
Qed.

End dict_more.

Section registry_more.
Context `{!Collaborators}.
Import Namespaces.
Implicit Types (self : Namespaces.t) (uri prefix : option string).

Lemma add_registers (u : string) prefix self :
  u ≠ "" → PyDict.contains u (items (add (Some u) prefix self)) = true.
Proof.
  intros Hu. destruct (PyDict.get u (items self)) as [p|] eqn:Hg.
  - rewrite add_registered; apply contains_true; eauto.
  - rewrite add_unregistered by done. apply contains_true.
    destruct (get_enum u); [|destruct (Py.truthy prefix)];
      simpl; eexists; apply get_set_eq.
Qed.

(** X1. [add] does nothing for an absent or an empty URI, and adding a
    URI a second time, with whatever prefix, changes neither the table
    nor the counter. *)
Theorem add_twice uri prefix1 prefix2 self :
  add None prefix1 self = self ∧
  add (Some "") prefix1 self = self ∧
  add uri prefix2 (add uri prefix1 self) = add uri prefix1 self.
Proof.
  split; [done|]. split; [done|].
  destruct uri as [u|]; [|done].
  destruct (decide (u = "")) as [->|Hu]; [done|].
  apply add_registered. by apply add_registers.
Qed.

(** X2. For a URI that is new and outside the catalog, a non-empty
    prefix of the caller is stored as it is and the counter stays; an
    empty or missing prefix counts as none: the URI gets [ns] followed
    by the counter, and the counter moves by one. *)
Theorem add_caller_prefix (u : string) prefix self :
  u ≠ "" →
  PyDict.get u (items self) = None →
  get_enum u = None →
  (Py.truthy prefix = true →
     PyDict.get u (items (add (Some u) prefix self)) = prefix ∧
     auto_ns (add (Some u) prefix self) = auto_ns self) ∧
  (Py.truthy prefix = false →
     PyDict.get u (items (add (Some u) prefix self))
       = Some ("ns" +:+ pretty (auto_ns self)) ∧
     auto_ns (add (Some u) prefix self) = auto_ns self + 1).
Proof.
  intros Hu Hg Hwk. rewrite add_unregistered by done. rewrite Hwk.
  split; intros Hp; rewrite Hp; simpl; (split; [|done]); rewrite get_set_eq.
  - apply truthy_Some_inv in Hp as (p & -> & _). done.
  - done.
Qed.

Lemma add_appends uri prefix self :
  ∃ suffix,
    items (add uri prefix self) = items self ++ suffix ∧
    auto_ns self ≤ auto_ns (add uri prefix self) ∧
    auto_ns (add uri prefix self) ≤ auto_ns self + length suffix.
Proof.
  destruct uri as [u|]; [|exists []; simpl; rewrite app_nil_r; split; [done|lia]].
  destruct (decide (u = "")) as [->|Hu].
  { exists []. rewrite add_empty, app_nil_r. simpl. split; [done|lia]. }
  destruct (PyDict.get u (items self)) as [p|] eqn:Hg.
  { exists []. rewrite add_registered by (apply contains_true; eauto).
    rewrite app_nil_r. simpl. split; [done|lia]. }
  rewrite add_unregistered by done.
  destruct (get_enum u); [|destruct (Py.truthy prefix)]; simpl;
    eexists; (split; [by apply set_fresh|]); simpl; lia.
Qed.

Lemma run_call_appends c self :
  ∃ suffix,
    items (run_call c self) = items self ++ suffix ∧
    auto_ns self ≤ auto_ns (run_call c self) ∧
    auto_ns (run_call c self) ≤ auto_ns self + length suffix.
Proof.
  destruct c as [uri prefix|ns_map]; simpl; [apply add_appends|].
  unfold add_all. revert self.
  induction ns_map as [|[p u] ns_map IH]; intros self; simpl.
  - exists []. rewrite app_nil_r. simpl. split; [done|lia].
  - destruct (add_appends u p self) as (s1 & H1 & Hlo1 & Hhi1).
    destruct (IH (add u p self)) as (s2 & H2 & Hlo2 & Hhi2).
    exists (s1 ++ s2). rewrite H2, H1, length_app, <- app_assoc.
    split; [done|]. lia.
Qed.

(** X3. The registry only grows, and only at its end: after any calls of
    [add] and [add_all] the table is the old table followed by the new
    entries, in the order they were registered; the counter never goes
    down and moves by at most one per new entry. *)
Theorem registry_grows_at_the_end (calls : list call) self :
  ∃ suffix,
    items (run calls self) = items self ++ suffix ∧
    auto_ns self ≤ auto_ns (run calls self) ∧
    auto_ns (run calls self) ≤ auto_ns self + length suffix.
Proof.
  unfold run. revert self.
  induction calls as [|c calls IH]; intros self; simpl.
  - exists []. rewrite app_nil_r. simpl. split; [done|lia].
  - destruct (run_call_appends c self) as (s1 & H1 & Hlo1 & Hhi1).
    destruct (IH (run_call c self)) as (s2 & H2 & Hlo2 & Hhi2).
    exists (s1 ++ s2). rewrite H2, H1, length_app, <- app_assoc.
    split; [done|]. lia.
Qed.

End registry_more.

Section registry_views.
Context `{!Collaborators}.
Import Namespaces.
Implicit Types (self : Namespaces.t) (uri prefix : option string).

Lemma auto_named_cons (seen : list string) uri prefix
    (calls : list (option string * option string)) :
  auto_named seen ((uri, prefix) :: calls) =
    match uri with
    | Some u =>
        if bool_decide (u = "") || bool_decide (u ∈ seen) then
          auto_named seen calls
        else if bool_decide (is_Some (get_enum u)) || Py.truthy prefix then
          auto_named (u :: seen) calls
        else u :: auto_named (u :: seen) calls
    | None => auto_named seen calls
    end.
Proof. reflexivity. Qed.

Lemma run_adds_cons uri prefix
    (calls : list (option string * option string)) self :
  run (adds ((uri, prefix) :: calls)) self
    = run (adds calls) (add uri prefix self).
Proof. reflexivity. Qed.

Lemma auto_named_counter (calls : list (option string * option string)) :
  ∀ (seen : list string) self,
    (∀ y, y ∈ seen ↔ PyDict.contains y (items self) = true) →
    auto_ns (run (adds calls) self)
      = auto_ns self + length (auto_named seen calls).
Proof.
  induction calls as [|[uri prefix] calls IH]; intros seen self Hseen.
  - simpl. lia.
  - rewrite auto_named_cons, run_adds_cons.
    destruct uri as [u0|]; [|by apply (IH seen)].
    destruct (decide (u0 = "")) as [->|Hne].
    { rewrite bool_decide_eq_true_2 by done. rewrite add_empty.
      by apply (IH seen). }
    rewrite (bool_decide_eq_false_2 (u0 = "")) by done.
    destruct (decide (u0 ∈ seen)) as [Hin|Hnin].
    { rewrite bool_decide_eq_true_2 by done.
      rewrite add_registered by by apply Hseen. by apply (IH seen). }
    rewrite (bool_decide_eq_false_2 (u0 ∈ seen)) by done.
    assert (PyDict.get u0 (items self) = None) as Hnone.
    { apply contains_false.
      destruct (PyDict.contains u0 (items self)) eqn:E; [|done].
      exfalso. by apply Hnin, Hseen. }
    rewrite add_unregistered by done. cbn [orb].
    destruct (get_enum u0) as [p|] eqn:Hwk.
    { rewrite bool_decide_eq_true_2 by eauto. cbn [orb].
      rewrite (IH (u0 :: seen) (mk _ _)); [done|].
      intros y. by apply contains_after_add. }
    rewrite bool_decide_eq_false_2 by (intros [? ?]; discriminate).
    cbn [orb]. destruct (Py.truthy prefix) eqn:Hp.
    { rewrite (IH (u0 :: seen) (mk _ _)); [done|].
      intros y. by apply contains_after_add. }
    rewrite (IH (u0 :: seen) (mk _ _)); [simpl; lia|].
    intros y. by apply contains_after_add.
Qed.

(** X4. On a new registry the counter ends at the number of URIs that
    were given a generated prefix, and two such URIs never get the same
    generated prefix. *)
Theorem generated_prefixes_distinct
    (calls : list (option string * option string)) :
  auto_ns (run (adds calls) fresh) = length (auto_named [] calls) ∧
  ∀ (k1 k2 : nat) (u1 u2 : string),
    auto_named [] calls !! k1 = Some u1 →
    auto_named [] calls !! k2 = Some u2 →
    k1 ≠ k2 →
    PyDict.get u1 (items (run (adds calls) fresh))
      ≠ PyDict.get u2 (items (run (adds calls) fresh)).
Proof.
  assert (∀ y, y ∈ [] ↔ PyDict.contains y (items fresh) = true) as Hseen.
  { intros y. simpl. split; [intros Hy; inversion Hy | discriminate]. }
  split.
  - by rewrite (auto_named_counter calls [] fresh Hseen).
  - intros k1 k2 u1 u2 H1 H2 Hne.
    rewrite (auto_named_prefix calls [] fresh k1 u1 Hseen H1).
    rewrite (auto_named_prefix calls [] fresh k2 u2 Hseen H2).
    simpl. intros [= Heq]. apply Hne. by apply (inj pretty).
Qed.

Lemma ns_map_fold (p : string) (l acc : list (string * string)) :
  PyDict.get p (fold_left (λ acc kv, PyDict.set (snd kv) (fst kv) acc) l acc) =
    match PyDict.get p (reverse (prod_swap <$> l)) with
    | Some u => Some u
    | None => PyDict.get p acc
    end.
Proof.
  revert acc. induction l as [|[u0 p0] l IH]; intros acc; [reflexivity|].
  cbn [fold_left fmap list_fmap]. rewrite IH, reverse_cons, get_app. simpl.
  destruct (PyDict.get p (reverse (prod_swap <$> l))); [done|].
  destruct (decide (p = p0)) as [->|Hne].
  - apply get_set_eq.
  - by rewrite get_set_ne.
Qed.

Lemma ns_map_fold_NoDup (l acc : list (string * string)) :
  NoDup (PyDict.keys acc) →
  NoDup (PyDict.keys
           (fold_left (λ acc kv, PyDict.set (snd kv) (fst kv) acc) l acc)).
Proof.
  revert acc. induction l as [|[u0 p0] l IH]; intros acc Hnd; simpl; [done|].
  apply IH. by apply set_NoDup.
Qed.

Lemma ns_map_view self (p : string) :
  PyDict.get p (ns_map self)
    = PyDict.get p (reverse (prod_swap <$> items self)).
Proof.
  unfold ns_map. rewrite ns_map_fold.
  by destruct (PyDict.get p (reverse (prod_swap <$> items self))).
Qed.

(** X5. [ns_map] is the table read backwards: a prefix maps to the URI
    that was registered last under it. It is a dictionary (its prefixes
    are distinct keys); whatever it maps a prefix to is a URI registered
    under that prefix, and every prefix of the table is one of its
    keys. *)
Theorem ns_map_inverse_view self :
  (∀ p, PyDict.get p (ns_map self)
        = PyDict.get p (reverse (prod_swap <$> items self))) ∧
  NoDup (PyDict.keys (ns_map self)) ∧
  (NoDup (PyDict.keys (items self)) →
   ∀ p u, PyDict.get p (ns_map self) = Some u →
          PyDict.get u (items self) = Some p) ∧
  (∀ u p, PyDict.get u (items self) = Some p →
          is_Some (PyDict.get p (ns_map self))).
Proof.
  pose proof (ns_map_view self) as Hview.
  split; [done|]. split; [|split].
  - unfold ns_map. apply ns_map_fold_NoDup. apply NoDup_nil_2.
  - intros Hnd p u Hget. rewrite Hview in Hget.
    apply get_Some_elem in Hget. rewrite elem_of_reverse in Hget.
    apply list_elem_of_fmap in Hget as ([u' p'] & [= -> ->] & Hin).
    by apply elem_get_Some.
  - intros u p Hget. rewrite Hview. apply get_Some_elem in Hget.
    apply (elem_get_is_Some p u). rewrite elem_of_reverse.
    apply list_elem_of_fmap. by exists (u, p).
Qed.

(** X6. Every prefix that [prefixes] lists is non-empty and is a key of
    [ns_map]: the prefixes [render_tree] asks lxml to keep are all
    declared in the namespace map it passes along. *)
Theorem prefixes_are_declared self (p : string) :
  p ∈ prefixes self → p ≠ "" ∧ is_Some (PyDict.get p (ns_map self)).
Proof.
  unfold prefixes. intros Hin. apply list_elem_of_filter in Hin as [Hne Hin].
  split; [done|].
  assert (∃ u, (u, p) ∈ items self) as [u Hu].
  { clear Hne. induction (items self) as [|[u0 p0] l IH]; [inversion Hin|].
    simpl in Hin. apply elem_of_cons in Hin as [->|Hin].
    - exists u0. apply list_elem_of_here.
    - destruct (IH Hin) as [u Hu]. exists u. by apply list_elem_of_further. }
  clear Hin. rename Hu into Hin.
  rewrite ns_map_view. apply (elem_get_is_Some p u). rewrite elem_of_reverse.
  apply list_elem_of_fmap. by exists (u, p).
Qed.

Lemma add_all_registers (m : list (option string * option string)) :
  ∀ self p (u : string),
    (p, Some u) ∈ m → u ≠ "" →
    PyDict.contains u (items (add_all m self)) = true.
Proof.
  unfold add_all.
  induction m as [|[p0 u0] m IH]; intros self p u Hin Hu; [inversion Hin|].
  simpl. apply elem_of_cons in Hin as [[= <- <-]|Hin].
  - pose proof (add_registers u p self Hu) as Hc.
    apply contains_true in Hc as [v Hv]. apply contains_true. exists v.
    by apply (add_all_keeps u v m).
  - by apply (IH _ p).
Qed.

Lemma add_all_noop (m : list (option string * option string)) self :
  (∀ p (u : string), (p, Some u) ∈ m →
     u = "" ∨ PyDict.contains u (items self) = true) →
  add_all m self = self.
Proof.
  unfold add_all. induction m as [|[p0 u0] m IH]; intros Hall; simpl; [done|].
  assert (add u0 p0 self = self) as ->.
  { destruct u0 as [u|]; [|done].
    destruct (Hall p0 u (list_elem_of_here _ _)) as [->|Hc]; [done|].
    by apply add_registered. }
  apply IH. intros p u Hin. apply (Hall p). by apply list_elem_of_further.
Qed.

(** X7. Merging a namespace map twice is merging it once: after
    [add_all] every non-empty URI of the map is registered, so a second
    [add_all] with the same map changes nothing. *)
Theorem add_all_twice (m : list (option string * option string)) self :
  (∀ p (u : string), (p, Some u) ∈ m → u ≠ "" →
     PyDict.contains u (items (add_all m self)) = true) ∧
  add_all m (add_all m self) = add_all m self.
Proof.
  split.
  - intros p u. apply add_all_registers.
  - apply add_all_noop. intros p u Hin.
    destruct (decide (u = "")) as [->|Hu]; [by left|right].
    by apply (add_all_registers m self p).
Qed.

End registry_views.

(** * Further properties of the builder *)

(** ** Every change of state is one of five steps *)

Section builder_steps.
Context `{!Collaborators}.
Import XmlSerializer.
Variable R : State → State → Prop.
Hypothesis R_refl : ∀ st, R st st.
Hypothesis R_trans : ∀ st1 st2 st3, R st1 st2 → R st2 st3 → R st1 st3.
Hypothesis R_field : ∀ st r f,
  field_update f →
  R st {| heap := alter f r (heap st); namespaces := namespaces st |}.
Hypothesis R_child : ∀ st p qname,
  R st {| heap := alter (Element.with_child (length (heap st))) p
                    (heap st ++ [Element.new qname]);
          namespaces := namespaces st |}.
Hypothesis R_add : ∀ st uri prefix,
  R st {| heap := heap st;
          namespaces := Namespaces.add uri prefix (namespaces st) |}.

Lemma respects_ret {A} (a : A) : respects R (ret a).
Proof. intros st a' st' [= <- <-]. apply R_refl. Qed.

Lemma respects_raise {A} e : respects R (@raise A e).
Proof. intros st a st' [=]. Qed.

Lemma respects_bind {A B} (m : M A) (k : A → M B) :
  respects R m → (∀ a, respects R (k a)) → respects R (bind m k).
Proof.
  intros Hm Hk st b st' Hb. apply bind_Ok_inv in Hb as (a & st1 & H1 & H2).
  eapply R_trans; [by eapply Hm | by eapply Hk].
Qed.

Lemma respects_for_each {A} (l : list A) (body : A → M unit) :
  (∀ x, respects R (body x)) → respects R (for_each l body).
Proof.
  intros Hbody. induction l as [|x l IH]; simpl.
  - apply respects_ret.
  - apply respects_bind; [apply Hbody|]. intros _. apply IH.
Qed.

Lemma respects_deref r : respects R (deref r).
Proof. intros st a st' [= <- <-]. apply R_refl. Qed.

Lemma respects_getattr fields name : respects R (getattr fields name).
Proof.
  unfold getattr. destruct (PyDict.get name fields);
    [apply respects_ret|apply respects_raise].
Qed.

Lemma respects_mutate r f : field_update f → respects R (mutate r f).
Proof. intros Hf st [] st' [= <-]. by apply R_field. Qed.

Lemma respects_SubElement p qname : respects R (SubElement p qname).
Proof. intros st a st' [= <- <-]. apply R_child. Qed.

Lemma respects_add uri prefix :
  respects R (on_namespaces (Namespaces.add uri prefix)).
Proof. intros st [] st' [= <-]. apply R_add. Qed.

Lemma respects_add_all nsmap :
  respects R (on_namespaces (Namespaces.add_all nsmap)).
Proof.
  intros st [] st' [= <-]. unfold Namespaces.add_all. destruct st as [h ns].
  simpl. revert ns. induction nsmap as [|[p u] nsmap IH]; intros ns; simpl.
  - apply R_refl.
  - eapply R_trans; [|apply IH]. apply (R_add (mkState h ns)).
Qed.

Ltac respects_field := apply respects_mutate; constructor.

Lemma respects_set_attributes p values : respects R (set_attributes p values).
Proof.
  unfold set_attributes. destruct values; try apply respects_raise.
  apply respects_for_each. intros x. respects_field.
Qed.

Lemma respects_set_nil_attribute var p : respects R (set_nil_attribute var p).
Proof.
  unfold set_nil_attribute. apply respects_bind; [apply respects_deref|].
  intros e. destruct (_ && _); [|apply respects_ret].
  apply respects_bind; [apply respects_add|]. intros _. respects_field.
Qed.

Lemma respects_set_any_children fuel :
  ∀ p value, respects R (set_any_children fuel p value).
Proof.
  induction fuel as [|fuel IH]; intros p value; simpl.
  - apply respects_raise.
  - apply respects_for_each. intros val.
    destruct val; simpl; try apply respects_ret.
    + apply respects_bind; [apply respects_deref|]. intros e.
      destruct (Py.truthy _); respects_field.
    + apply respects_bind; [respects_field|]. intros _.
      apply respects_bind; [apply respects_add_all|]. intros _.
      apply (respects_set_attributes p (VDict _)).
    + apply respects_bind; [apply respects_add|]. intros _.
      apply respects_bind; [apply respects_SubElement|]. intros sub.
      apply respects_bind; [respects_field|]. intros _.
      apply respects_bind; [respects_field|]. intros _.
      apply respects_for_each. intros child. apply IH.
Qed.

Lemma respects_render_var rn sac fields p var :
  (∀ v q, respects R (rn v q)) →
  (∀ q v, respects R (sac q v)) →
  respects R (render_var rn sac fields p var).
Proof.
  intros Hrn Hsac. unfold render_var.
  apply respects_bind; [apply respects_getattr|]. intros value.
  destruct (is_not_None value).
  - apply respects_bind.
    { destruct (negb _); [apply respects_add|apply respects_ret]. }
    intros _.
    destruct (ClassVar.is_attribute var); [unfold set_attribute; respects_field|].
    destruct (ClassVar.is_any_attribute var); [apply respects_set_attributes|].
    destruct (ClassVar.is_any_element var); [apply Hsac|].
    destruct (ClassVar.is_text var).
    + destruct (is_dataclass value);
        [apply respects_raise|unfold set_text; respects_field].
    + unfold set_children. apply respects_for_each. intros val.
      apply respects_bind; [apply respects_SubElement|]. intros sub.
      apply respects_bind; [apply Hrn|]. intros _.
      apply respects_set_nil_attribute.
  - destruct (ClassVar.is_text var);
      [apply respects_set_nil_attribute|apply respects_ret].
Qed.

Lemma respects_render_node fuel :
  ∀ obj p, respects R (render_node fuel obj p).
Proof.
  induction fuel as [|fuel IH]; intros obj p; simpl.
  - apply respects_raise.
  - assert (respects R
      (mutate p (Element.with_text (Some (to_xml obj))) ;; ret p)) as Hleaf.
    { apply respects_bind; [respects_field|]. intros _. apply respects_ret. }
    destruct (record_view obj) as [[cls fields]|]; [|exact Hleaf].
    apply respects_bind; [apply respects_deref|]. intros e.
    apply respects_bind; [|intros _; apply respects_ret].
    apply respects_for_each. intros var.
    apply respects_render_var; [exact IH|apply respects_set_any_children].
Qed.

End builder_steps.

(** ** The registry and the elements during a render *)

Section builder_keeps.
Context `{!Collaborators}.
Import XmlSerializer.

Lemma registry_extended_refl st : registry_extended st st.
Proof. exists []. by rewrite app_nil_r. Qed.

Lemma registry_extended_trans st1 st2 st3 :
  registry_extended st1 st2 → registry_extended st2 st3 →
  registry_extended st1 st3.
Proof.
  intros [s1 H1] [s2 H2]. exists (s1 ++ s2). by rewrite H2, H1, app_assoc.
Qed.

Lemma render_node_registry fuel obj parent :
  respects registry_extended (render_node fuel obj parent).
Proof.
  apply respects_render_node.
  - apply registry_extended_refl.
  - apply registry_extended_trans.
  - intros st r f _. exists []. simpl. by rewrite app_nil_r.
  - intros st p qname. exists []. simpl. by rewrite app_nil_r.
  - intros st uri prefix.
    destruct (add_appends uri prefix (namespaces st)) as (s & Hs & _).
    by exists s.
Qed.

Lemma prefixes_app (l1 l2 : list (string * string)) (n1 n2 : nat) :
  Namespaces.prefixes (Namespaces.mk (l1 ++ l2) n1)
    = Namespaces.prefixes (Namespaces.mk l1 n2)
      ++ Namespaces.prefixes (Namespaces.mk l2 n2).
Proof.
  unfold Namespaces.prefixes, PyDict.values. simpl.
  by rewrite map_app, filter_app.
Qed.

(** X8. During a render the registry is only added to at its end: what
    [render_node] finds registered is still registered, in the same
    order, when it returns. So the prefixes [render_tree] asks lxml to
    keep start with the prefix of the root namespace; for a root
    namespace outside the catalog that is [ns0]. *)
Theorem render_registers_root_namespace_first :
  (∀ fuel obj parent st r st',
     render_node fuel obj parent st = Ok r st' → registry_extended st st') ∧
  (∀ fuel cls fields namespace store t store',
     render_tree fuel (VData cls fields) namespace store = inr (t, store') →
     ∃ suffix,
       keep_ns_prefixes t =
         Namespaces.prefixes
           (Namespaces.add (ClassMeta.namespace (class_meta cls namespace))
                           None Namespaces.fresh)
         ++ suffix) ∧
  (∀ fuel cls fields namespace store t store' (u : string),
     render_tree fuel (VData cls fields) namespace store = inr (t, store') →
     ClassMeta.namespace (class_meta cls namespace) = Some u →
     u ≠ "" → get_enum u = None →
     ∃ suffix, keep_ns_prefixes t = ("ns" +:+ pretty 0) :: suffix).
Proof.
  assert (∀ fuel cls fields namespace store t store',
     render_tree fuel (VData cls fields) namespace store = inr (t, store') →
     ∃ suffix,
       keep_ns_prefixes t =
         Namespaces.prefixes
           (Namespaces.add (ClassMeta.namespace (class_meta cls namespace))
                           None Namespaces.fresh)
         ++ suffix) as Htree.
  { intros fuel cls fields namespace store t store'. rewrite render_tree_eq.
    destruct (render_node _ _ _ _) as [r st|e] eqn:Hrun; [|discriminate].
    intros [= <- <-]. simpl.
    apply render_node_registry in Hrun as [s Hs]. simpl in Hs.
    destruct (namespaces st) as [its n]. simpl in Hs. subst its.
    destruct (Namespaces.add _ None Namespaces.fresh) as [its0 n0]. simpl.
    exists (Namespaces.prefixes (Namespaces.mk s n0)).
    apply prefixes_app. }
  split; [|split; [exact Htree|]].
  - intros fuel obj parent st r st' Hrun. by eapply render_node_registry.
  - intros fuel cls fields namespace store t store' u Hrun Hns Hu Hwk.
    apply Htree in Hrun as [s Hs]. rewrite Hns in Hs.
    rewrite add_unregistered in Hs by done. rewrite Hwk in Hs.
    simpl in Hs. exists s. rewrite Hs. reflexivity.
Qed.

Lemma content_kept_refl st : content_kept st st.
Proof. split; [done|]. intros i _. split; reflexivity. Qed.

Lemma content_kept_trans st1 st2 st3 :
  content_kept st1 st2 → content_kept st2 st3 → content_kept st1 st3.
Proof.
  intros [Hl1 H1] [Hl2 H2]. split; [lia|]. intros i Hi.
  destruct (H1 i Hi) as [Hc1 Ha1].
  destruct (H2 i ltac:(lia)) as [Hc2 Ha2].
  split; etrans; eauto.
Qed.

Lemma keys_set_prefix (k : QName) (v : string) (d : list (QName * string)) :
  PyDict.keys d `prefix_of` PyDict.keys (PyDict.set k v d).
Proof.
  destruct (PyDict.get k d) as [v0|] eqn:Hg.
  - by rewrite (keys_set_present k v v0).
  - rewrite keys_set_fresh by done. by apply prefix_app_r.
Qed.

Lemma content_kept_alter st r (f : Element.node → Element.node) :
  (∀ n, Element.children n `prefix_of` Element.children (f n)) →
  (∀ n, PyDict.keys (Element.attrib n)
          `prefix_of` PyDict.keys (Element.attrib (f n))) →
  ∀ i, i < length (heap st) →
    Element.children (heap st !!! i)
      `prefix_of` Element.children (alter f r (heap st) !!! i) ∧
    PyDict.keys (Element.attrib (heap st !!! i))
      `prefix_of` PyDict.keys (Element.attrib (alter f r (heap st) !!! i)).
Proof.
  intros Hc Ha i Hi. destruct (decide (r = i)) as [->|Hne].
  - rewrite list_lookup_total_alter_eq by done. split; [apply Hc|apply Ha].
  - rewrite list_lookup_total_alter_ne by done. split; reflexivity.
Qed.

Lemma render_node_content fuel obj parent :
  respects content_kept (render_node fuel obj parent).
Proof.
  apply respects_render_node.
  - apply content_kept_refl.
  - apply content_kept_trans.
  - intros st r f Hf. split; [simpl; by rewrite length_alter|]. simpl.
    apply content_kept_alter; intros n; destruct Hf; simpl;
      try reflexivity. apply keys_set_prefix.
  - intros st p qname. split.
    { simpl. rewrite length_alter, length_app. lia. }
    intros i Hi. simpl.
    assert (alter (Element.with_child (length (heap st))) p
              (heap st ++ [Element.new qname]) !!! i
            = alter (Element.with_child (length (heap st))) p (heap st) !!! i)
      as ->.
    { destruct (decide (p < length (heap st))).
      - rewrite alter_app_l by done.
        by rewrite lookup_total_app_l by (by rewrite length_alter).
      - rewrite list_lookup_total_alter_ne by lia.
        rewrite list_lookup_total_alter_ne by lia.
        by rewrite lookup_total_app_l. }
    apply content_kept_alter;
      [intros n; simpl; by apply prefix_app_r | intros n; reflexivity | done].
  - intros st uri prefix. split; [done|]. intros i _. split; reflexivity.
Qed.

(** X9. The builder never removes or reorders what an element has: for
    every element that exists when [render_node] starts, the children
    and the attribute keys it has when [render_node] returns are those
    it had, in the same order, possibly followed by new ones. *)
Theorem render_node_keeps_content fuel obj parent st r st' :
  render_node fuel obj parent st = Ok r st' → content_kept st st'.
Proof. intros Hrun. by eapply render_node_content. Qed.

End builder_keeps.

(** ** One child per item *)

Section children_in_order.
Context `{!Collaborators}.
Import XmlSerializer.

Lemma lookup_total_eq (h h' : list Element.node) i :
  h' !! i = h !! i → h' !!! i = h !!! i.
Proof. intros Heq. by rewrite !list_lookup_total_alt, Heq. Qed.

Lemma render_node_leaf fuel val sub st r st' :
  is_dataclass val = false →
  render_node fuel val sub st = Ok r st' →
  st' = {| heap := alter (Element.with_text (Some (to_xml val))) sub (heap st);
           namespaces := namespaces st |}.
Proof.
  intros Hleaf. destruct fuel as [|fuel]; [discriminate|].
  destruct val; try discriminate; simpl; by intros [= _ <-].
Qed.

Lemma touches_child_body fuel parent var val :
  touches_only parent
    (let* sub_element := SubElement parent (ClassVar.qname var) in
     render_node fuel val sub_element ;;
     set_nil_attribute var sub_element).
Proof.
  apply touches_SubElement. intros sub.
  apply touches_bind; [apply touches_render_node|]. intros _.
  apply touches_set_nil_attribute.
Qed.

(** One turn of the loop of [set_children]. *)
Lemma set_children_step fuel parent var val st st1 :
  parent < length (heap st) →
  (let* sub_element := SubElement parent (ClassVar.qname var) in
   render_node fuel val sub_element ;;
   set_nil_attribute var sub_element) st = Ok tt st1 →
  only_touches parent st st1 ∧
  length (heap st) < length (heap st1) ∧
  Element.children (heap st1 !!! parent)
    = Element.children (heap st !!! parent) ++ [length (heap st)] ∧
  Element.tag (heap st1 !!! length (heap st)) = ClassVar.qname var ∧
  (nil_condition var (heap st1 !!! length (heap st)) →
   PyDict.get nil_qname (Element.attrib (heap st1 !!! length (heap st)))
     = Some "true") ∧
  (is_dataclass val = false →
   Element.text (heap st1 !!! length (heap st)) = Some (to_xml val) ∧
   Element.children (heap st1 !!! length (heap st)) = [] ∧
   Element.attrib (heap st1 !!! length (heap st)) = []).
Proof.
  intros Hparent Hrun.
  pose proof (touches_child_body fuel parent var val st tt st1 Hrun) as Htouch.
  split; [exact Htouch|].
  apply bind_Ok_inv in Hrun as (sub & sta & Hsub & Hrun).
  unfold SubElement, Element, bind, mutate, ret in Hsub. simpl in Hsub.
  injection Hsub as <- <-.
  set (sub := length (heap st)) in *.
  set (sta := {| heap := alter (Element.with_child sub) parent
                           (heap st ++ [Element.new (ClassVar.qname var)]);
                 namespaces := namespaces st |}) in *.
  assert (length (heap sta) = S sub) as Hlen.
  { simpl. rewrite length_alter, length_app. simpl. lia. }
  assert (heap sta !!! parent = Element.with_child sub (heap st !!! parent))
    as Hpa.
  { simpl. rewrite alter_app_l by done.
    rewrite lookup_total_app_l by (by rewrite length_alter).
    by rewrite list_lookup_total_alter_eq. }
  assert (heap sta !!! sub = Element.new (ClassVar.qname var)) as Hsa.
  { simpl. rewrite alter_app_l by done.
    apply list_lookup_total_middle. by rewrite length_alter. }
  apply bind_Ok_inv in Hrun as (r & stb & Hrender & Hnil).
  pose proof (touches_render_node fuel val sub sta r stb Hrender)
    as Htr.
  pose proof (touches_set_nil_attribute sub var stb tt st1 Hnil) as Hts.
  pose proof Htr as (Hlb & _).
  pose proof (only_touches_trans _ _ _ _ Htr Hts) as (Hl & Hsame & Htag & _).
  split; [lia|]. split; [|split; [|split]].
  - rewrite (lookup_total_eq (heap sta) (heap st1) parent).
    + by rewrite Hpa.
    + apply Hsame; lia.
  - rewrite Htag by lia. by rewrite Hsa.
  - rewrite set_nil_attribute_eq in Hnil.
    destruct (decide (nil_condition var (heap stb !!! sub))) as [Hc|Hc];
      injection Hnil as <-; [|done].
    intros _. cbn [heap]. rewrite list_lookup_total_alter_eq by lia.
    apply get_set_eq.
  - intros Hleaf.
    pose proof (render_node_leaf _ _ _ _ _ _ Hleaf Hrender) as ->.
    rewrite set_nil_attribute_eq in Hnil. cbn [heap namespaces] in Hnil.
    assert (alter (Element.with_text (Some (to_xml val))) sub (heap sta) !!! sub
            = Element.with_text (Some (to_xml val))
                (Element.new (ClassVar.qname var))) as Hnode.
    { rewrite list_lookup_total_alter_eq by lia. by rewrite Hsa. }
    rewrite Hnode in Hnil.
    rewrite decide_False in Hnil by (intros (_ & ? & _); discriminate).
    injection Hnil as <-.
    split; [exact (f_equal Element.text Hnode)|].
    split; [exact (f_equal Element.children Hnode)
           |exact (f_equal Element.attrib Hnode)].
Qed.

Lemma set_children_loop fuel parent var (items : list Value) :
  ∀ st st',
    parent < length (heap st) →
    for_each items (λ val,
      let* sub_element := SubElement parent (ClassVar.qname var) in
      render_node fuel val sub_element ;;
      set_nil_attribute var sub_element) st = Ok tt st' →
    only_touches parent st st' ∧
    ∃ subs,
      Element.children (heap st' !!! parent)
        = Element.children (heap st !!! parent) ++ subs ∧
      Forall2 (λ sub val,
          length (heap st) ≤ sub ∧ sub < length (heap st') ∧
          Element.tag (heap st' !!! sub) = ClassVar.qname var ∧
          (nil_condition var (heap st' !!! sub) →
           PyDict.get nil_qname (Element.attrib (heap st' !!! sub))
             = Some "true") ∧
          (is_dataclass val = false →
           Element.text (heap st' !!! sub) = Some (to_xml val) ∧
           Element.children (heap st' !!! sub) = [] ∧
           Element.attrib (heap st' !!! sub) = []))
        subs items.
Proof.
  induction items as [|val items IH]; intros st st' Hparent Hrun.
  - injection Hrun as <-. split; [apply only_touches_refl|].
    exists []. rewrite app_nil_r. split; [done|constructor].
  - simpl in Hrun. apply bind_Ok_inv in Hrun as ([] & st1 & Hstep & Hrest).
    apply set_children_step in Hstep
      as (Ht1 & Hlen & Hch & Htag & Hmark & Hleaf); [|done].
    apply IH in Hrest as (Ht2 & subs & Hch2 & Hall); [|lia].
    split; [by eapply only_touches_trans|].
    exists (length (heap st) :: subs). split.
    { by rewrite Hch2, Hch, <- app_assoc. }
    destruct Ht2 as (Hl2 & Hsame2 & _).
    assert (heap st' !!! length (heap st) = heap st1 !!! length (heap st))
      as Hkeep.
    { apply lookup_total_eq. apply Hsame2; lia. }
    constructor.
    + rewrite Hkeep. split; [lia|]. split; [lia|]. done.
    + eapply Forall2_impl; [exact Hall|]. simpl.
      intros sub v (? & ? & ?). split; [lia|]. done.
Qed.

(** X10. [set_children] gives the parent one new child per item of the
    value, after the children it had and in the order of the items; each
    new child is a new element named by the qualified name of the field,
    and the child of an item that is not a dataclass instance has the
    converted item as text and no children. *)
Theorem set_children_one_child_per_item fuel parent value var st st' :
  parent < length (heap st) →
  set_children (render_node fuel) parent value var st = Ok tt st' →
  ∃ subs,
    Element.children (heap st' !!! parent)
      = Element.children (heap st !!! parent) ++ subs ∧
    Forall2 (λ sub val,
        length (heap st) ≤ sub ∧ sub < length (heap st') ∧
        Element.tag (heap st' !!! sub) = ClassVar.qname var ∧
        (is_dataclass val = false →
         Element.text (heap st' !!! sub) = Some (to_xml val) ∧
         Element.children (heap st' !!! sub) = []))
      subs (as_list value).
Proof.
  intros Hparent Hrun.
  apply (set_children_loop fuel parent var (as_list value)) in Hrun
    as (_ & subs & Hch & Hall); [|done].
  exists subs. split; [done|].
  eapply Forall2_impl; [exact Hall|]. simpl.
  intros sub val (? & ? & ? & _ & Hleaf). do 3 (split; [done|]).
  intros Hval. by destruct (Hleaf Hval) as (? & ? & _).
Qed.

(** X17. The nil check reads the element as it is when the check runs:
    [set_nil_attribute] gives the element one nil attribute with value
    [true] and registers the instance-metadata namespace exactly when
    the field is nillable and the element has, at that moment, an unset
    text and no children, and changes nothing otherwise. In
    [set_children] the check comes after the item has been rendered and
    nothing touches the child afterwards: of the children built for the
    items of a value, one and several, every child of a nillable field
    that ends up without text and without children carries the nil
    attribute, and the child of an item that is no dataclass instance
    never does. *)
Theorem nil_check_reads_current_element :
  (∀ var element st,
     element < length (heap st) →
     NoDup (PyDict.keys (Element.attrib (heap st !!! element))) →
     ∃ st', set_nil_attribute var element st = Ok tt st' ∧
       (nil_condition var (heap st !!! element) →
          length (filter (λ kv, fst kv = nil_qname)
                         (Element.attrib (heap st' !!! element))) = 1 ∧
          PyDict.get nil_qname (Element.attrib (heap st' !!! element))
            = Some "true" ∧
          Element.text (heap st' !!! element) = None ∧
          Element.children (heap st' !!! element) = [] ∧
          namespaces st'
            = Namespaces.add (Some XSI_uri) (Some XSI_prefix) (namespaces st)) ∧
       (¬ nil_condition var (heap st !!! element) → st' = st)) ∧
  (∀ fuel parent value var st st',
     parent < length (heap st) →
     set_children (render_node fuel) parent value var st = Ok tt st' →
     ∃ subs,
       Element.children (heap st' !!! parent)
         = Element.children (heap st !!! parent) ++ subs ∧
       Forall2 (λ sub val,
           (nil_condition var (heap st' !!! sub) →
            PyDict.get nil_qname (Element.attrib (heap st' !!! sub))
              = Some "true") ∧
           (is_dataclass val = false →
            PyDict.get nil_qname (Element.attrib (heap st' !!! sub)) = None))
         subs (as_list value)).
Proof.
  split.
  - intros var element st Hvalid Hnd. rewrite set_nil_attribute_eq.
    destruct (decide (nil_condition var (heap st !!! element)))
      as [(Hn & Ht & Hc)|Hnot].
    + eexists. split; [reflexivity|]. split; [|intros Hnot; exfalso; by apply Hnot].
      intros _. simpl. rewrite list_lookup_total_alter_eq by done. simpl.
      split; [by apply set_count_one|]. split; [apply get_set_eq|]. done.
    + exists st. split; [done|]. split; [intros ?; by exfalso|done].
  - intros fuel parent value var st st' Hparent Hrun.
    apply (set_children_loop fuel parent var (as_list value)) in Hrun
      as (_ & subs & Hch & Hall); [|done].
    exists subs. split; [done|].
    eapply Forall2_impl; [exact Hall|]. simpl.
    intros sub val (_ & _ & _ & Hmark & Hleaf). split; [done|].
    intros Hval. destruct (Hleaf Hval) as (_ & _ & ->). reflexivity.
Qed.

End children_in_order.

(** ** Wildcard content and attribute maps *)

Section wildcard_more.
Context `{!Collaborators}.
Import XmlSerializer.

Lemma set_any_children_cons fuel parent val (rest : list Value) st :
  set_any_children (S fuel) parent (VList (val :: rest)) st =
    match set_any_child (set_any_children fuel) parent val st with
    | Ok _ st1 => set_any_children (S fuel) parent (VList rest) st1
    | Raise e => Raise e
    end.
Proof. reflexivity. Qed.

Lemma set_any_child_tail fuel parent (s : string) st :
  Py.truthy (Element.text (heap st !!! parent)) = true →
  set_any_child (set_any_children fuel) parent (VStr s) st =
    Ok tt {| heap := alter (Element.with_tail (Some s)) parent (heap st);
             namespaces := namespaces st |}.
Proof.
  intros Htext. unfold set_any_child, bind, deref. by rewrite Htext.
Qed.

Lemma text_after_tail parent (x : option string) st :
  Py.truthy (Element.text (heap st !!! parent)) = true →
  Py.truthy (Element.text
               (alter (Element.with_tail x) parent (heap st) !!! parent)) = true.
Proof.
  intros Htext.
  assert (parent < length (heap st)) as Hvalid.
  { destruct (decide (parent < length (heap st))); [done|].
    rewrite lookup_total_ge in Htext by lia. discriminate. }
  by rewrite list_lookup_total_alter_eq.
Qed.

(** X11. Of several plain-text items processed while the parent has a
    non-empty text, only the last one is kept: each one replaces the tail
    of the parent, so the result is the state before with the tail of the
    parent set to the last string. *)
Theorem plain_text_items_last_wins fuel parent (s : string)
    (ss : list string) st :
  Py.truthy (Element.text (heap st !!! parent)) = true →
  set_any_children (S fuel) parent (VList (VStr <$> (s :: ss))) st =
    Ok tt {| heap := alter (Element.with_tail (last (s :: ss))) parent (heap st);
             namespaces := namespaces st |}.
Proof.
  revert s st. induction ss as [|s' ss IH]; intros s st Htext.
  - cbn [fmap list_fmap]. rewrite set_any_children_cons.
    by rewrite set_any_child_tail.
  - change (VStr <$> s :: s' :: ss) with (VStr s :: (VStr <$> s' :: ss)).
    rewrite set_any_children_cons, set_any_child_tail by done.
    rewrite IH by (by apply text_after_tail).
    cbn [heap namespaces]. rewrite list_alter_alter_eq.
    change (last (s :: s' :: ss)) with (last (s' :: ss)).
    reflexivity.
Qed.

(** X12. Items that are neither plain text nor one of the two wildcard
    carriers are passed over: a wildcard value made of numbers,
    booleans, [None], mappings, nested lists or record instances leaves
    the tree and the registry as they are, and raises nothing. *)
Theorem wildcard_ignores_other_items fuel parent value st :
  forallb ignored_by_wildcard (as_list value) = true →
  set_any_children (S fuel) parent value st = Ok tt st.
Proof.
  simpl. generalize (as_list value). intros items. revert st.
  induction items as [|val items IH]; intros st Hall; simpl in *; [done|].
  apply andb_prop in Hall as [Hval Hall].
  unfold bind. destruct val; try discriminate; simpl; by apply IH.
Qed.

Lemma get_fold_set {K V : Type} `{EqDecision K} (k : K)
    (l d : list (K * V)) :
  PyDict.get k (fold_left (λ d kv, PyDict.set (fst kv) (snd kv) d) l d) =
    match PyDict.get k (reverse l) with
    | Some v => Some v
    | None => PyDict.get k d
    end.
Proof.
  revert d. induction l as [|[k0 v0] l IH]; intros d; [reflexivity|].
  cbn [fold_left]. rewrite IH, reverse_cons, get_app. simpl.
  destruct (PyDict.get k (reverse l)); [done|].
  destruct (decide (k = k0)) as [->|Hne].
  - apply get_set_eq.
  - by rewrite get_set_ne.
Qed.

Lemma set_attributes_fold parent (entries : list (QName * string)) :
  ∀ st, parent < length (heap st) →
    ∃ st', set_attributes parent (VDict entries) st = Ok tt st' ∧
      length (heap st') = length (heap st) ∧
      namespaces st' = namespaces st ∧
      (∀ i, i ≠ parent → heap st' !! i = heap st !! i) ∧
      Element.tag (heap st' !!! parent) = Element.tag (heap st !!! parent) ∧
      Element.text (heap st' !!! parent) = Element.text (heap st !!! parent) ∧
      Element.tail (heap st' !!! parent) = Element.tail (heap st !!! parent) ∧
      Element.children (heap st' !!! parent)
        = Element.children (heap st !!! parent) ∧
      Element.attrib (heap st' !!! parent)
        = fold_left (λ d kv, PyDict.set (fst kv) (snd kv) d) entries
            (Element.attrib (heap st !!! parent)).
Proof.
  unfold set_attributes.
  induction entries as [|[k v] entries IH]; intros st Hparent.
  - exists st. simpl. by repeat split.
  - simpl. unfold bind, mutate at 1.
    set (st1 := {| heap := alter (Element.with_attribute k v) parent (heap st);
                   namespaces := namespaces st |}).
    destruct (IH st1) as (st' & Hrun & Hlen & Hns & Hother & Htag & Htext
                          & Htail & Hch & Hattr).
    { simpl. by rewrite length_alter. }
    exists st'. split; [exact Hrun|].
    assert (heap st1 !!! parent
            = Element.with_attribute k v (heap st !!! parent)) as Hnode.
    { simpl. by rewrite list_lookup_total_alter_eq. }
    rewrite Hnode in Htag, Htext, Htail, Hch, Hattr.
    split; [by rewrite Hlen; simpl; rewrite length_alter|].
    split; [done|]. split; [|done].
    intros i Hne. rewrite Hother by done. simpl.
    by apply list_lookup_alter_ne.
Qed.

(** X13. [set_attributes] merges a mapping into the attributes of the
    parent: afterwards a key of the mapping has the value the mapping
    gives it (the last one, should the key come twice), every other
    attribute is as before, and nothing else of the tree or the registry
    changes. A value that is not a mapping raises [AttributeError]. *)
Theorem set_attributes_merges parent :
  (∀ (entries : list (QName * string)) st,
     parent < length (heap st) →
     ∃ st', set_attributes parent (VDict entries) st = Ok tt st' ∧
       (∀ k, PyDict.get k (Element.attrib (heap st' !!! parent)) =
             match PyDict.get k (reverse entries) with
             | Some v => Some v
             | None => PyDict.get k (Element.attrib (heap st !!! parent))
             end) ∧
       Element.tag (heap st' !!! parent) = Element.tag (heap st !!! parent) ∧
       Element.text (heap st' !!! parent) = Element.text (heap st !!! parent) ∧
       Element.tail (heap st' !!! parent) = Element.tail (heap st !!! parent) ∧
       Element.children (heap st' !!! parent)
         = Element.children (heap st !!! parent) ∧
       (∀ i, i ≠ parent → heap st' !! i = heap st !! i) ∧
       length (heap st') = length (heap st) ∧
       namespaces st' = namespaces st) ∧
  (∀ values st,
     (∀ entries, values ≠ VDict entries) →
     set_attributes parent values st = Raise AttributeError).
Proof.
  split.
  - intros entries st Hparent.
    destruct (set_attributes_fold parent entries st Hparent)
      as (st' & Hrun & Hlen & Hns & Hother & Htag & Htext & Htail & Hch & Hattr).
    exists st'. split; [exact Hrun|]. split.
    { intros k. rewrite Hattr. apply get_fold_set. }
    by repeat split.
  - intros values st Hnot. destruct values; try reflexivity.
    by exfalso; eapply Hnot.
Qed.

End wildcard_more.

(** ** Records of primitive values *)

Section flat_records.
Context `{!Collaborators}.
Import XmlSerializer.

Lemma succeeds_ret {A} (a : A) : succeeds (ret a).
Proof. intros st. by exists a, st. Qed.

Lemma succeeds_bind {A B} (m : M A) (k : A → M B) :
  succeeds m → (∀ a, succeeds (k a)) → succeeds (bind m k).
Proof.
  intros Hm Hk st. destruct (Hm st) as (a & st1 & H1).
  destruct (Hk a st1) as (b & st2 & H2). exists b, st2.
  unfold bind. by rewrite H1.
Qed.

Lemma succeeds_for_each {A} (l : list A) (body : A → M unit) :
  (∀ x, x ∈ l → succeeds (body x)) → succeeds (for_each l body).
Proof.
  induction l as [|x l IH]; intros Hbody; simpl.
  - apply succeeds_ret.
  - apply succeeds_bind; [apply Hbody, list_elem_of_here|].
    intros _. apply IH. intros y Hy. by apply Hbody, list_elem_of_further.
Qed.

Lemma succeeds_mutate r f : succeeds (mutate r f).
Proof. intros st. by eexists _, _. Qed.

Lemma succeeds_deref r : succeeds (deref r).
Proof. intros st. by eexists _, _. Qed.

Lemma succeeds_on_namespaces f : succeeds (on_namespaces f).
Proof. intros st. by eexists _, _. Qed.

Lemma succeeds_SubElement p qname : succeeds (SubElement p qname).
Proof. intros st. by eexists _, _. Qed.

Lemma succeeds_set_nil_attribute var p : succeeds (set_nil_attribute var p).
Proof.
  intros st. rewrite set_nil_attribute_eq. destruct (decide _); by eexists _, _.
Qed.

Lemma succeeds_render_primitive fuel v p :
  is_primitive v = true → succeeds (render_node (S fuel) v p).
Proof.
  intros Hv. destruct v; try discriminate; simpl;
    (apply succeeds_bind; [apply succeeds_mutate|intros _; apply succeeds_ret]).
Qed.

Lemma succeeds_wildcard_primitive fuel v p :
  is_primitive v = true → succeeds (set_any_children (S fuel) p v).
Proof.
  intros Hv. destruct v; try discriminate; simpl;
    (apply succeeds_bind; [|intros _; apply succeeds_ret]);
    try apply succeeds_ret.
  apply succeeds_bind; [apply succeeds_deref|]. intros e.
  destruct (Py.truthy _); apply succeeds_mutate.
Qed.

Lemma succeeds_render_var fuel fields p var v :
  PyDict.get (ClassVar.name var) fields = Some v →
  is_primitive v = true →
  ClassVar.tag var ≠ CAnyAttribute →
  succeeds (render_var (render_node (S fuel)) (set_any_children (S fuel))
              fields p var).
Proof.
  intros Hget Hv Htag. unfold render_var, getattr. rewrite Hget.
  assert (∀ B (k : Value → M B), succeeds (k v) → succeeds (bind (ret v) k))
    as Hret.
  { intros B k Hk st. apply Hk. }
  apply Hret.
  destruct (is_not_None v) eqn:Hnone.
  - apply succeeds_bind.
    { destruct (negb _); [apply succeeds_on_namespaces|apply succeeds_ret]. }
    intros _.
    unfold ClassVar.is_attribute, ClassVar.is_any_attribute,
      ClassVar.is_any_element, ClassVar.is_text.
    destruct (ClassVar.tag var); simpl; try done.
    + unfold set_children.
      assert (as_list v = [v]) as -> by (destruct v; done).
      apply succeeds_for_each. intros x Hx.
      apply list_elem_of_singleton in Hx as ->.
      apply succeeds_bind; [apply succeeds_SubElement|]. intros sub.
      apply succeeds_bind; [by apply succeeds_render_primitive|]. intros _.
      apply succeeds_set_nil_attribute.
    + apply succeeds_mutate.
    + assert (is_dataclass v = false) as -> by (destruct v; done).
      apply succeeds_mutate.
    + by apply succeeds_wildcard_primitive.
  - destruct (ClassVar.is_text var);
      [apply succeeds_set_nil_attribute|apply succeeds_ret].
Qed.

Lemma render_node_record fuel cls fields parent st :
  render_node (S fuel) (VData cls fields) parent st =
    match
      for_each
        (ClassMeta.vars
           (class_meta cls (qn_namespace (Element.tag (heap st !!! parent)))))
        (render_var (render_node fuel) (set_any_children fuel) fields parent)
        st
    with
    | Ok _ st' => Ok parent st'
    | Raise e => Raise e
    end.
Proof. reflexivity. Qed.

(** With every string taken by the store, as the model has it, such a
    record is built. *)
Lemma flat_record_builds fuel cls fields namespace store :
  (∀ var,
     var ∈ ClassMeta.vars
             (class_meta cls
                (qn_namespace (ClassMeta.qname (class_meta cls namespace)))) →
     ClassVar.tag var ≠ CAnyAttribute ∧
     ∃ v, PyDict.get (ClassVar.name var) fields = Some v ∧
          is_primitive v = true) →
  ∃ t store',
    render_tree (S (S fuel)) (VData cls fields) namespace store
      = inr (t, store').
Proof.
  intros Hvars. rewrite render_tree_eq.
  assert (succeeds
    (for_each
       (ClassMeta.vars
          (class_meta cls
             (qn_namespace (ClassMeta.qname (class_meta cls namespace)))))
       (render_var (render_node (S fuel)) (set_any_children (S fuel)) fields
          (length store)))) as Hloop.
  { apply succeeds_for_each. intros var Hvar.
    destruct (Hvars var Hvar) as (Htag & v & Hget & Hv).
    by apply (succeeds_render_var fuel fields _ var v). }
  destruct (Hloop (initial_state cls namespace store)) as ([] & st' & Hrun).
  rewrite render_node_record, initial_state_root.
  cbn [Element.tag Element.new]. rewrite Hrun. by eexists _, _.
Qed.

(** X14. A record all of whose described fields are there and hold
    primitive values or [None], and that has no wildcard-attribute field,
    makes the serializer raise none of the errors of its own code,
    whatever the values, the classifications of the fields and the store:
    no serializer error, no [AttributeError] for a missing attribute or
    a value that is no mapping, no [TypeError] for an object that is no
    dataclass instance, and no recursion error with two levels of
    recursion to spare. What lxml refuses, a string XML cannot hold or a
    name that is no XML name, is not among them. *)
Theorem flat_record_raises_none_of_its_errors fuel cls fields namespace store :
  (∀ var,
     var ∈ ClassMeta.vars
             (class_meta cls
                (qn_namespace (ClassMeta.qname (class_meta cls namespace)))) →
     ClassVar.tag var ≠ CAnyAttribute ∧
     ∃ v, PyDict.get (ClassVar.name var) fields = Some v ∧
          is_primitive v = true) →
  (∀ msg, render_tree (S (S fuel)) (VData cls fields) namespace store
          ≠ inl (SerializerError msg)) ∧
  render_tree (S (S fuel)) (VData cls fields) namespace store
    ≠ inl AttributeError ∧
  render_tree (S (S fuel)) (VData cls fields) namespace store
    ≠ inl TypeError ∧
  render_tree (S (S fuel)) (VData cls fields) namespace store
    ≠ inl RecursionError.
Proof.
  intros Hvars.
  destruct (flat_record_builds fuel cls fields namespace store Hvars)
    as (t & store' & ->).
  by repeat split.
Qed.

End flat_records.

(** ** Wildcard elements in order *)

Section wildcard_in_order.
Context `{!Collaborators}.
Import XmlSerializer.

Lemma mutate_children parent (f : Element.node → Element.node) st :
  (∀ n, Element.children (f n) = Element.children n) →
  Element.children (alter f parent (heap st) !!! parent)
    = Element.children (heap st !!! parent).
Proof.
  intros Hf. destruct (decide (parent < length (heap st))).
  - by rewrite list_lookup_total_alter_eq.
  - by rewrite !lookup_total_ge by (rewrite ?length_alter; lia).
Qed.

(** One turn of the loop of [set_any_children]. *)
Lemma set_any_child_step fuel parent val st st1 :
  parent < length (heap st) →
  set_any_child (set_any_children fuel) parent val st = Ok tt st1 →
  only_touches parent st st1 ∧
  match val with
  | VAnyElement qname _ _ _ =>
      length (heap st) < length (heap st1) ∧
      Element.children (heap st1 !!! parent)
        = Element.children (heap st !!! parent) ++ [length (heap st)] ∧
      Element.tag (heap st1 !!! length (heap st)) = qname
  | _ =>
      Element.children (heap st1 !!! parent)
        = Element.children (heap st !!! parent)
  end.
Proof.
  intros Hparent Hrun.
  assert (only_touches parent st st1) as Htouch.
  { eapply (touches_set_any_child (set_any_children fuel) parent val);
      [|exact Hrun].
    intros q v. apply touches_set_any_children. }
  split; [exact Htouch|].
  destruct val; simpl in Hrun; try (by injection Hrun as <-).
  - unfold bind, deref in Hrun.
    destruct (Py.truthy _); injection Hrun as <-; simpl;
      by apply mutate_children.
  - apply bind_Ok_inv in Hrun as ([] & sta & Ha & Hrun). injection Ha as <-.
    apply bind_Ok_inv in Hrun as ([] & stb & Hb & Hrun). injection Hb as <-.
    destruct (set_attributes_fold parent attributes
                {| heap := alter (Element.with_text text) parent (heap st);
                   namespaces := Namespaces.add_all nsmap (namespaces st) |})
      as (st' & Hrun' & _ & _ & _ & _ & _ & _ & Hch & _).
    { simpl. by rewrite length_alter. }
    assert (Ok tt st1 = Ok tt st') as Heq
      by (etrans; [symmetry; exact Hrun|exact Hrun']).
    injection Heq as ->.
    rewrite Hch. simpl. by apply mutate_children.
  - apply bind_Ok_inv in Hrun as ([] & sta & Ha & Hrun). injection Ha as <-.
    apply bind_Ok_inv in Hrun as (sub & stb & Hsub & Hrun).
    unfold SubElement, Element, bind, mutate, ret in Hsub. simpl in Hsub.
    injection Hsub as <- <-.
    set (sub := length (heap st)) in *.
    set (stb := {| heap := alter (Element.with_child sub) parent
                             (heap st ++ [Element.new qname]);
                   namespaces :=
                     Namespaces.add (qn_namespace qname) None (namespaces st) |})
      in *.
    assert (length (heap stb) = S sub) as Hlen.
    { simpl. rewrite length_alter, length_app. simpl. lia. }
    assert (heap stb !!! parent = Element.with_child sub (heap st !!! parent))
      as Hpa.
    { simpl. rewrite alter_app_l by done.
      rewrite lookup_total_app_l by (by rewrite length_alter).
      by rewrite list_lookup_total_alter_eq. }
    assert (heap stb !!! sub = Element.new qname) as Hsa.
    { simpl. rewrite alter_app_l by done.
      apply list_lookup_total_middle. by rewrite length_alter. }
    assert (touches_only sub
      (mutate sub (Element.with_text text) ;;
       mutate sub (Element.with_tail tail) ;;
       for_each children (λ child, set_any_children fuel sub child)))
      as Hbody.
    { apply touches_bind; [apply touches_mutate; by intros n|]. intros _.
      apply touches_bind; [apply touches_mutate; by intros n|]. intros _.
      apply touches_for_each. intros child _. apply touches_set_any_children. }
    apply Hbody in Hrun as (Hl & Hsame & Htag & _).
    split; [lia|]. split.
    + rewrite (lookup_total_eq (heap stb) (heap st1) parent).
      * by rewrite Hpa.
      * apply Hsame; lia.
    + rewrite Htag by lia. by rewrite Hsa.
Qed.

Lemma set_any_children_loop fuel parent (items : list Value) :
  ∀ st st',
    parent < length (heap st) →
    for_each items (set_any_child (set_any_children fuel) parent) st
      = Ok tt st' →
    only_touches parent st st' ∧
    ∃ subs,
      Element.children (heap st' !!! parent)
        = Element.children (heap st !!! parent) ++ subs ∧
      Forall2 (λ sub qname,
          length (heap st) ≤ sub ∧ sub < length (heap st') ∧
          Element.tag (heap st' !!! sub) = qname)
        subs (wildcard_qnames items).
Proof.
  induction items as [|val items IH]; intros st st' Hparent Hrun.
  - injection Hrun as <-. split; [apply only_touches_refl|].
    exists []. rewrite app_nil_r. split; [done|constructor].
  - simpl in Hrun. apply bind_Ok_inv in Hrun as ([] & st1 & Hstep & Hrest).
    apply set_any_child_step in Hstep as (Ht1 & Hval); [|done].
    pose proof Ht1 as (Hl1 & _).
    apply IH in Hrest as (Ht2 & subs & Hch2 & Hall); [|lia].
    split; [by eapply only_touches_trans|].
    assert (Forall2 (λ sub qname,
              length (heap st) ≤ sub ∧ sub < length (heap st') ∧
              Element.tag (heap st' !!! sub) = qname)
              subs (wildcard_qnames items)) as Hall'.
    { eapply Forall2_impl; [exact Hall|]. simpl.
      intros sub q (? & ? & ?). split; [lia|]. done. }
    destruct val; try (exists subs; rewrite Hch2, Hval; by split).
    destruct Hval as (Hlen & Hch & Htag).
    exists (length (heap st) :: subs). split.
    { by rewrite Hch2, Hch, <- app_assoc. }
    destruct Ht2 as (Hl2 & Hsame2 & _).
    assert (heap st' !!! length (heap st) = heap st1 !!! length (heap st))
      as Hkeep.
    { apply lookup_total_eq. apply Hsame2; lia. }
    change (wildcard_qnames (VAnyElement qname text tail children :: items))
      with (qname :: wildcard_qnames items).
    constructor; [|exact Hall'].
    rewrite Hkeep. split; [lia|]. split; [lia|]. done.
Qed.

(** X15. [set_any_children] gives the parent one new child per annotated
    element among the items, after the children it had and in the order
    of the items, each a new element with the qualified name of its
    item; plain text and annotated text add no child. *)
Theorem wildcard_elements_in_order fuel parent value st st' :
  parent < length (heap st) →
  set_any_children (S fuel) parent value st = Ok tt st' →
  ∃ subs,
    Element.children (heap st' !!! parent)
      = Element.children (heap st !!! parent) ++ subs ∧
    Forall2 (λ sub qname,
        length (heap st) ≤ sub ∧ sub < length (heap st') ∧
        Element.tag (heap st' !!! sub) = qname)
      subs (wildcard_qnames (as_list value)).
Proof.
  intros Hparent Hrun. simpl in Hrun.
  by apply (set_any_children_loop fuel parent (as_list value)) in Hrun as [_ ?].
Qed.

End wildcard_in_order.

(** ** The namespace of a field *)

Section field_namespace.
Context `{!Collaborators}.
Import XmlSerializer.

Lemma render_var_registry fuel fields parent var :
  respects registry_extended
    (render_var (render_node fuel) (set_any_children fuel) fields parent var).
Proof.
  assert (∀ st, registry_extended st st) as Hrefl
    by (intros st; exists []; by rewrite app_nil_r).
  assert (∀ st1 st2 st3, registry_extended st1 st2 →
            registry_extended st2 st3 → registry_extended st1 st3) as Htrans.
  { intros st1 st2 st3 [s1 H1] [s2 H2]. exists (s1 ++ s2).
    by rewrite H2, H1, app_assoc. }
  assert (∀ st r f, field_update f →
            registry_extended st
              {| heap := alter f r (heap st); namespaces := namespaces st |})
    as Hfield by (intros st r f _; exists []; simpl; by rewrite app_nil_r).
  assert (∀ st p qname,
            registry_extended st
              {| heap := alter (Element.with_child (length (heap st))) p
                           (heap st ++ [Element.new qname]);
                 namespaces := namespaces st |})
    as Hchild by (intros st p qname; exists []; simpl; by rewrite app_nil_r).
  assert (∀ st uri prefix,
            registry_extended st
              {| heap := heap st;
                 namespaces := Namespaces.add uri prefix (namespaces st) |})
    as Hadd.
  { intros st uri prefix.
    destruct (add_appends uri prefix (namespaces st)) as (s & Hs & _).
    by exists s. }
  apply respects_render_var; try done.
  - intros v q. by apply respects_render_node.
  - intros q v. by apply respects_set_any_children.
Qed.

(** X16. A field with a present value that is not a wildcard-element
    field has its namespace registered when its content has been built:
    after [render_var] the non-empty namespace of the descriptor is a key
    of the registry. For an absent value the registry stays as it is,
    unless the nil attribute is set, which registers the
    instance-metadata namespace and nothing else. *)
Theorem present_field_registers_namespace fuel fields parent var st st' :
  render_var (render_node fuel) (set_any_children fuel) fields parent var st
    = Ok tt st' →
  (∀ value (u : string),
     PyDict.get (ClassVar.name var) fields = Some value →
     is_not_None value = true →
     ClassVar.tag var ≠ CAnyElement →
     ClassVar.namespace var = Some u → u ≠ "" →
     PyDict.contains u (Namespaces.items (namespaces st')) = true) ∧
  (PyDict.get (ClassVar.name var) fields = Some VNone →
   namespaces st' = namespaces st ∨
   namespaces st'
     = Namespaces.add (Some XSI_uri) (Some XSI_prefix) (namespaces st)).
Proof.
  intros Hrun. split.
  - intros value u Hget Hpresent Htag Hns Hu.
    set (st1 := {| heap := heap st;
                   namespaces := Namespaces.add (Some u) None (namespaces st) |}).
    assert (PyDict.contains u (Namespaces.items (namespaces st1)) = true)
      as Hreg by (by apply add_registers).
    assert (render_var (render_node fuel) (set_any_children fuel)
              fields parent var st1 = Ok tt st') as Hrun1.
    { unfold render_var, getattr in Hrun |- *. rewrite Hget in Hrun |- *.
      rewrite bind_ret_eq in Hrun |- *. cbv beta in Hrun |- *.
      rewrite Hpresent in Hrun |- *.
      unfold ClassVar.is_any_element in Hrun |- *.
      rewrite !(bool_decide_eq_false_2 (ClassVar.tag var = CAnyElement))
        in Hrun |- * by done.
      cbn [negb] in Hrun |- *. rewrite Hns in Hrun |- *.
      rewrite bind_on_namespaces_eq in Hrun |- *.
      rewrite (add_registered u None (namespaces st1) Hreg).
      exact Hrun. }
    apply render_var_registry in Hrun1 as [s Hs].
    apply contains_true in Hreg as [p Hp]. apply contains_true. exists p.
    by rewrite Hs, get_app, Hp.
  - intros Hget. unfold render_var, getattr in Hrun. rewrite Hget in Hrun.
    rewrite bind_ret_eq in Hrun. cbn [is_not_None] in Hrun.
    destruct (ClassVar.is_text var).
    + rewrite set_nil_attribute_eq in Hrun.
      destruct (decide _); injection Hrun as <-; [by right|by left].
    + injection Hrun as <-. by left.
Qed.

End field_namespace.

(** * The further properties on concrete inputs *)

Module MoreExamples.
Import XmlSerializer Scenario.

(** A store that holds one new element. *)
Definition one_element (name : string) : State :=
  {| heap := [Element.new (q name)]; namespaces := Namespaces.fresh |}.

(** An element field in a namespace of its own. *)
Definition name_in_namespace : ClassVar.t :=
  ClassVar.mk "name" (mkQName (Some "urn:x") "name") (Some "urn:x")
              CElement false.

Definition state_of {A} (r : Result A) (otherwise : State) : State :=
  match r with Ok _ st => st | Raise _ => otherwise end.

(** A root that already has an attribute and a child, and the state
    after a record with an attribute and an element was built into it. *)
Definition tagged_root : State :=
  {| heap := [Element.mk (q "root") [(q "lang", "en")] None None [1];
              Element.new (q "old")];
     namespaces := Namespaces.fresh |}.

Definition after_tagged : State :=
  Eval vm_compute in
    state_of (@render_node C 3 tagged 0 tagged_root) tagged_root.

(** The state after [set_children] built, for a nillable field, a record
    without fields and a string. *)
Definition nillable_items : Value := VList [VData "Empty" []; VStr "x"].

Definition after_nillable_items : State :=
  Eval vm_compute in
    state_of (@set_children C (@render_node C 3) 0 nillable_items
                (Sample.element "item" true) (one_element "root"))
             (one_element "root").

(** The state after [set_children] built a list of two items. *)
Definition two_items : Value := VList [VInt 1; VStr "a"].

Definition after_two_items : State :=
  Eval vm_compute in
    state_of (@set_children C (@render_node C 2) 0 two_items
                (Sample.element "item" false) (one_element "root"))
             (one_element "root").

(** The state after the wildcard content of scenario C was built. *)
Definition mixed_content : Value :=
  VList [VStr "lead ";
         VAnyElement (mkQName None "b") (Some "bold") None [];
         VStr " trail"].

Definition after_mixed_content : State :=
  Eval vm_compute in
    state_of (@set_any_children C 2 0 mixed_content (one_element "Mixed"))
             (one_element "Mixed").

(** The state after one field in a namespace was rendered. *)
Definition after_name_field : State :=
  Eval vm_compute in
    state_of (@render_var C (@render_node C 2) (@set_any_children C 2)
                [("name", VStr "Shirt")] 0 name_in_namespace
                (one_element "root"))
             (one_element "root").

(** The product of the fixture, rendered in the namespace [urn:x]. *)
Definition product_in_namespace : tree * list Element.node :=
  Eval vm_compute in
    match @render_tree C 10 (product "ProductType") (Some "urn:x") [] with
    | inr r => r
    | inl _ => (mkTree 0 [] [], [])
    end.

Lemma add_caller_prefix_witness :
  PyDict.get "urn:a"
    (Namespaces.items (@Namespaces.add C (Some "urn:a") (Some "p")
                         Namespaces.fresh)) = Some "p" ∧
  Namespaces.auto_ns (@Namespaces.add C (Some "urn:a") (Some "p")
                        Namespaces.fresh) = 0.
Proof.
  apply (proj1 (@add_caller_prefix C "urn:a" (Some "p") Namespaces.fresh
                  ltac:(discriminate) eq_refl eq_refl)).
  reflexivity.
Defined.

Lemma generated_prefixes_distinct_witness :
  Namespaces.auto_ns (@Namespaces.run C (adds naming_calls) Namespaces.fresh)
    = length (@auto_named C [] naming_calls) ∧
  PyDict.get "urn:a"
    (Namespaces.items (@Namespaces.run C (adds naming_calls) Namespaces.fresh))
  ≠ PyDict.get "urn:d"
    (Namespaces.items (@Namespaces.run C (adds naming_calls) Namespaces.fresh)).
Proof.
  destruct (@generated_prefixes_distinct C naming_calls) as [Hcount Hdistinct].
  split; [exact Hcount|].
  apply (Hdistinct 0 2 "urn:a" "urn:d"); [reflexivity|reflexivity|lia].
Defined.

Lemma ns_map_inverse_view_witness :
  PyDict.get "ns0"
    (Namespaces.ns_map (@Namespaces.run C shared_prefix_calls Namespaces.fresh))
    = Some "urn:b" ∧
  PyDict.get "urn:b"
    (Namespaces.items (@Namespaces.run C shared_prefix_calls Namespaces.fresh))
    = Some "ns0".
Proof.
  split; [reflexivity|].
  apply (proj1 (proj2 (proj2 (ns_map_inverse_view
           (@Namespaces.run C shared_prefix_calls Namespaces.fresh))))).
  - change (NoDup ["urn:a"; "urn:b"]). apply NoDup_cons. split.
    + intros Hin. apply list_elem_of_singleton in Hin. discriminate.
    + apply NoDup_singleton.
  - reflexivity.
Defined.

Lemma prefixes_are_declared_witness :
  "ns0" ≠ "" ∧
  is_Some (PyDict.get "ns0"
             (Namespaces.ns_map
                (@Namespaces.run C shared_prefix_calls Namespaces.fresh))).
Proof.
  apply (prefixes_are_declared
           (@Namespaces.run C shared_prefix_calls Namespaces.fresh) "ns0").
  change ("ns0" ∈ ["ns0"; "ns0"]). apply list_elem_of_here.
Defined.

Lemma add_all_twice_witness :
  @Namespaces.add_all C [(Some "p", Some "urn:a"); (None, Some "")]
    (@Namespaces.add_all C [(Some "p", Some "urn:a"); (None, Some "")]
       Namespaces.fresh)
  = @Namespaces.add_all C [(Some "p", Some "urn:a"); (None, Some "")]
      Namespaces.fresh.
Proof.
  apply (proj2 (@add_all_twice C [(Some "p", Some "urn:a"); (None, Some "")]
                  Namespaces.fresh)).
Defined.

Lemma root_namespace_first_witness :
  ∃ suffix,
    keep_ns_prefixes (fst product_in_namespace) = ("ns" +:+ pretty 0) :: suffix.
Proof.
  apply (proj2 (proj2 (@render_registers_root_namespace_first C))
           10 "ProductType"
           [("number", VInt 1); ("name", VStr "Shirt");
            ("size", VInt 10); ("color", VNone)]
           (Some "urn:x") [] (fst product_in_namespace)
           (snd product_in_namespace) "urn:x").
  - vm_compute. reflexivity.
  - reflexivity.
  - discriminate.
  - reflexivity.
Defined.

Lemma render_node_keeps_content_witness :
  content_kept tagged_root after_tagged ∧
  Element.children (heap after_tagged !!! 0) = [1; 2] ∧
  PyDict.keys (Element.attrib (heap after_tagged !!! 0)) = [q "lang"; q "id"].
Proof.
  split; [|split; reflexivity].
  apply (@render_node_keeps_content C 3 tagged 0 tagged_root 0).
  vm_compute. reflexivity.
Defined.

Lemma set_children_witness :
  ∃ subs,
    Element.children (heap after_two_items !!! 0)
      = Element.children (heap (one_element "root") !!! 0) ++ subs ∧
    length subs = 2.
Proof.
  destruct (@set_children_one_child_per_item C 2 0 two_items
              (Sample.element "item" false) (one_element "root")
              after_two_items) as (subs & Hch & Hall).
  - simpl. lia.
  - vm_compute. reflexivity.
  - exists subs. split; [exact Hch|]. by apply Forall2_length in Hall.
Defined.

Lemma plain_text_items_witness :
  @set_any_children C 1 0 (VList (VStr <$> ["a"; "b"; "c"])) mixed_before_trail
  = Ok tt {| heap := alter (Element.with_tail (last ["a"; "b"; "c"])) 0
                       (heap mixed_before_trail);
             namespaces := namespaces mixed_before_trail |}.
Proof.
  apply (@plain_text_items_last_wins C 0 0 "a" ["b"; "c"] mixed_before_trail).
  reflexivity.
Defined.

Lemma wildcard_ignores_witness :
  @set_any_children C 1 0
    (VList [VInt 1; VNone; VData "Empty" []; VList [VStr "x"]])
    (one_element "root")
  = Ok tt (one_element "root").
Proof.
  apply (@wildcard_ignores_other_items C 0 0). reflexivity.
Defined.

Lemma set_attributes_witness :
  ∃ st',
    set_attributes 0 (VDict [(q "id", "1"); (q "id", "2")]) (one_element "root")
      = Ok tt st' ∧
    PyDict.get (q "id") (Element.attrib (heap st' !!! 0)) = Some "2".
Proof.
  destruct (proj1 (set_attributes_merges 0)
              [(q "id", "1"); (q "id", "2")] (one_element "root"))
    as (st' & Hrun & Hget & _).
  - simpl. lia.
  - exists st'. split; [exact Hrun|]. by rewrite Hget.
Defined.

Lemma flat_record_witness :
  (∀ msg, @render_tree C 2 (product "ProductType") None []
          ≠ inl (SerializerError msg)) ∧
  @render_tree C 2 (product "ProductType") None [] ≠ inl AttributeError ∧
  @render_tree C 2 (product "ProductType") None [] ≠ inl TypeError ∧
  @render_tree C 2 (product "ProductType") None [] ≠ inl RecursionError.
Proof.
  apply (@flat_record_raises_none_of_its_errors C 0 "ProductType").
  intros var Hvar. apply list_elem_of_In in Hvar. simpl in Hvar.
  destruct Hvar as [<-|[<-|[<-|[<-|[]]]]];
    (split; [discriminate|eexists; split; reflexivity]).
Defined.

Lemma nil_check_witness :
  ∃ subs,
    Element.children (heap after_nillable_items !!! 0)
      = Element.children (heap (one_element "root") !!! 0) ++ subs ∧
    Forall2 (λ sub val,
        (nil_condition (Sample.element "item" true)
           (heap after_nillable_items !!! sub) →
         PyDict.get xsi_nil (Element.attrib (heap after_nillable_items !!! sub))
           = Some "true") ∧
        (is_dataclass val = false →
         PyDict.get xsi_nil (Element.attrib (heap after_nillable_items !!! sub))
           = None))
      subs [VData "Empty" []; VStr "x"].
Proof.
  apply (proj2 (@nil_check_reads_current_element C) 3 0 nillable_items
           (Sample.element "item" true) (one_element "root")
           after_nillable_items).
  - simpl. lia.
  - vm_compute. reflexivity.
Defined.

(** The two children of that state: the empty one carries the nil
    attribute, the one with a text does not. *)
Lemma nil_on_the_empty_child_only :
  heap after_nillable_items =
    [ Element.mk (q "root") [] None None [1; 2];
      Element.mk (q "item") [(xsi_nil, "true")] None None [];
      Element.mk (q "item") [] (Some "x") None [] ].
Proof. reflexivity. Qed.

Lemma wildcard_elements_witness :
  ∃ subs,
    Element.children (heap after_mixed_content !!! 0)
      = Element.children (heap (one_element "Mixed") !!! 0) ++ subs ∧
    length subs = 1.
Proof.
  destruct (@wildcard_elements_in_order C 1 0 mixed_content
              (one_element "Mixed") after_mixed_content)
    as (subs & Hch & Hall).
  - simpl. lia.
  - vm_compute. reflexivity.
  - exists subs. split; [exact Hch|]. by apply Forall2_length in Hall.
Defined.

Lemma field_namespace_witness :
  PyDict.contains "urn:x" (Namespaces.items (namespaces after_name_field))
    = true.
Proof.
  apply (proj1 (@present_field_registers_namespace C 2
                  [("name", VStr "Shirt")] 0 name_in_namespace
                  (one_element "root") after_name_field
                  ltac:(vm_compute; reflexivity))
           (VStr "Shirt") "urn:x");
    [reflexivity|reflexivity|discriminate|reflexivity|discriminate].
Defined.

End MoreExamples.
